(** * Order selection in waves: the CSP model of [main.py]

    A shallow embedding of the order/corridor selection program: the
    problem data, the three global feasibility checks, the backtracking
    enumerator [all_solutions] and the ranking done by [main].

    Conventions.
    - A Python [int] is a [Z].
    - The outer dictionaries [pedidos] and [corredores] are insertion
      ordered, and their order fixes the order of the variables: they are
      lists of entries [(key, inner dict)].  A Python dict has no repeated
      key, which theorems that need it assume as [NoDup (keys d)].
      [for o in pedidos: ... pedidos[o] ...] visits each entry once.
    - An inner dictionary (item -> quantity) is a [gmap Z Z]; it is only
      read through [.get], [.keys()] and [.values()].
    - An assignment is a [gmap string Z], keyed by the variable names
      [f"o{o}"] and [f"c{c}"].
    - A computation that can raise returns a [result].
    - The search is modelled twice: on values, with the working
      assignment threaded through the calls, and on a heap, where the
      working assignment is one shared object and a yield allocates a
      copy; the second is shown to follow the first. *)

From Stdlib Require Import ZArith QArith Lia.
From Stdlib Require Import Floats.SpecFloat.
From stdpp Require Import base strings pretty gmap list.

Open Scope Z_scope.
#[local] Set Warnings "-clear-no-such-hyp".

(** ** Python helpers *)

(** The exceptions the modelled code can raise. *)
Inductive exc : Type :=
  | KeyError
  | ZeroDivisionError
  | OverflowError
  | ValueError.

(** Outcome of a computation: a value, a raised exception, or the
    recursion budget of the model used up. *)
Inductive result (A : Type) : Type :=
  | Done (a : A)
  | Raise (e : exc)
  | OutOfFuel.
Arguments Done {A} a.
Arguments Raise {A} e.
Arguments OutOfFuel {A}.

#[global] Instance result_ret : MRet result := @Done.
#[global] Instance result_bind : MBind result := λ A B k m,
  match m with
  | Done a => k a
  | Raise e => Raise e
  | OutOfFuel => OutOfFuel
  end.

(** [sum(iterable)]: a left fold starting at [0]. *)
Definition py_sum (l : list Z) : Z := foldl Z.add 0 l.

(** [sum(d.values())]. *)
Definition sum_values (d : gmap Z Z) : Z := py_sum (map_to_list d).*2.

(** [d.get(k, 0)]. *)
Definition get0 `{Countable K} (d : gmap K Z) (k : K) : Z := default 0 (d !! k).

(** The keys of an insertion-ordered dictionary, in order. *)
Definition keys {V : Type} (d : list (Z * V)) : list Z := d.*1.

(** [f"o{o}"] and [f"c{c}"]: a prefix followed by the decimal numeral. *)
Definition var_o (o : Z) : string := "o" +:+ pretty o.
Definition var_c (c : Z) : string := "c" +:+ pretty c.

(** ** Problem data (lines 29-47) *)

Definition pedidos : list (Z * gmap Z Z) :=
  [ (0, {[ 0 := 3; 2 := 1 ]});
    (1, {[ 1 := 1; 3 := 1 ]});
    (2, {[ 2 := 1; 4 := 2 ]});
    (3, {[ 0 := 1; 2 := 2; 3 := 1; 4 := 1 ]});
    (4, {[ 1 := 1 ]}) ].

Definition corredores : list (Z * gmap Z Z) :=
  [ (0, {[ 0 := 2; 1 := 1; 2 := 1; 4 := 1 ]});
    (1, {[ 0 := 2; 1 := 1; 2 := 2; 4 := 1 ]});
    (2, {[ 1 := 2; 3 := 1; 4 := 2 ]});
    (3, {[ 0 := 2; 1 := 1; 3 := 1; 4 := 1 ]});
    (4, {[ 1 := 1; 2 := 2; 3 := 1; 4 := 2 ]}) ].

Definition LB : Z := 5.
Definition UB : Z := 12.

(** ** Variables, domains and neighbours (lines 53-87) *)

Definition criar_variaveis_e_dominios (pedidos corredores : list (Z * gmap Z Z))
  : list string * gmap string (list Z) :=
  let add (nome : Z → string) (acc : list string * gmap string (list Z)) (k : Z) :=
    let var_nome := nome k in
    (acc.1 ++ [var_nome], <[var_nome := [0; 1]]> acc.2) in
  let acc1 := foldl (add var_o) ([], ∅) (keys pedidos) in
  foldl (add var_c) acc1 (keys corredores).

Definition criar_neighbors (variaveis : list string) : gmap string (list string) :=
  foldl (λ (d : gmap string (list string)) var,
           <[var := filter (λ v, v ≠ var) variaveis]> d) ∅ variaveis.

(** ** The feasibility checks (lines 90-158) *)

(** [assignment.get(f"o{o}", 0) == 1] *)
Definition pedido_sel (assignment : gmap string Z) (o : Z) : bool :=
  get0 assignment (var_o o) =? 1.

(** [assignment.get(f"c{c}", 0) == 1] *)
Definition corredor_sel (assignment : gmap string Z) (c : Z) : bool :=
  get0 assignment (var_c c) =? 1.

Definition verifica_tamanho_wave (assignment : gmap string Z)
    (pedidos : list (Z * gmap Z Z)) (LB UB : Z) : bool * Z :=
  let total_unidades :=
    foldl (λ total (e : Z * gmap Z Z),
             if pedido_sel assignment e.1 then total + sum_values e.2 else total)
          0 pedidos in
  ((LB <=? total_unidades) && (total_unidades <=? UB), total_unidades).

(** The set [itens] collected by the first loop of [verifica_capacidade]. *)
Definition itens_dos_pedidos (pedidos : list (Z * gmap Z Z)) : gset Z :=
  foldl (λ (itens : gset Z) (e : Z * gmap Z Z), itens ∪ dom e.2) ∅ pedidos.

(** Line 121. *)
Definition demanda (assignment : gmap string Z) (pedidos : list (Z * gmap Z Z))
    (item : Z) : Z :=
  py_sum (map (λ e : Z * gmap Z Z, get0 e.2 item)
              (List.filter (λ e : Z * gmap Z Z, pedido_sel assignment e.1) pedidos)).

(** Line 122. *)
Definition oferta (assignment : gmap string Z) (corredores : list (Z * gmap Z Z))
    (item : Z) : Z :=
  py_sum (map (λ e : Z * gmap Z Z, get0 e.2 item)
              (List.filter (λ e : Z * gmap Z Z, corredor_sel assignment e.1) corredores)).

(** The second loop returns [False] at the first item whose demand
    exceeds the supply, and [True] when there is none; the iteration order
    of the set does not change that. *)
Definition verifica_capacidade (assignment : gmap string Z)
    (pedidos corredores : list (Z * gmap Z Z)) : bool :=
  forallb (λ item, negb (oferta assignment corredores item <? demanda assignment pedidos item))
          (elements (itens_dos_pedidos pedidos)).

Definition verifica_corridor_selecionado (assignment : gmap string Z)
    (corredores : list (Z * gmap Z Z)) : bool * Z :=
  let num_corr := py_sum (map (λ e : Z * gmap Z Z, get0 assignment (var_c e.1)) corredores) in
  (0 <? num_corr, num_corr).

Definition check_global_constraints (assignment : gmap string Z)
    (pedidos corredores : list (Z * gmap Z Z)) (LB UB : Z) : bool * Z * Z :=
  let '(ok_wave, total_unidades) := verifica_tamanho_wave assignment pedidos LB UB in
  if negb ok_wave then (false, total_unidades, 0)
  else if negb (verifica_capacidade assignment pedidos corredores)
  then (false, total_unidades, 0)
  else
    let '(ok_corr, num_corr) := verifica_corridor_selecionado assignment corredores in
    if negb ok_corr then (false, total_unidades, num_corr)
    else (true, total_unidades, num_corr).

(** ** The objective (lines 161-165) *)

(** A Python number: [calcular_valor_objetivo] returns the [int] 0 or a
    [float]. *)
Inductive pynum : Type :=
  | PyInt (z : Z)
  | PyFloat (f : spec_float).

(** An integer as the operand of a division: the value [z * 2^0]. *)
Definition z2sf (z : Z) : spec_float :=
  match z with
  | Z0 => S754_zero false
  | Zpos p => S754_finite false p 0
  | Zneg p => S754_finite true p 0
  end.

(** [a / b] on two [int]s is true division: the binary64 float nearest to
    the quotient (ties to even).  It raises on a zero divisor and when the
    quotient is beyond the range of a float. *)
Definition int_truediv (a b : Z) : result spec_float :=
  if b =? 0 then Raise ZeroDivisionError
  else
    match SFdiv 53 1024 (z2sf a) (z2sf b) with
    | S754_infinity _ => Raise OverflowError
    | q => Done q
    end.

Definition calcular_valor_objetivo (total_unidades num_corr : Z) : result pynum :=
  if 0 <? num_corr then q ← int_truediv total_unidades num_corr; mret (PyFloat q)
  else mret (PyInt 0).

(** The value of a number, for comparisons: floats and ints compare by
    value, and a NaN compares false with everything. *)
Inductive ext : Type :=
  | NaN
  | NegInf
  | Fin (q : Q)
  | PosInf.

Definition sf_value (f : spec_float) : ext :=
  match f with
  | S754_zero _ => Fin 0
  | S754_infinity s => if s then NegInf else PosInf
  | S754_nan => NaN
  | S754_finite s m e =>
      let num := if s then Z.neg m else Z.pos m in
      match e with
      | Z0 => Fin (num # 1)
      | Zpos k => Fin ((num * 2 ^ Z.pos k) # 1)
      | Zneg k => Fin (num # Pos.pow 2 k)
      end
  end.

Definition pynum_value (x : pynum) : ext :=
  match x with
  | PyInt z => Fin (z # 1)
  | PyFloat f => sf_value f
  end.

(** [x > y] *)
Definition ext_gt (x y : ext) : bool :=
  match x, y with
  | NaN, _ | _, NaN => false
  | PosInf, PosInf => false
  | PosInf, _ => true
  | _, PosInf => false
  | NegInf, _ => false
  | Fin _, NegInf => true
  | Fin a, Fin b => negb (Qle_bool a b)
  end.

Definition pynum_gt (x y : pynum) : bool := ext_gt (pynum_value x) (pynum_value y).

(** [max(l, key=key)]: a linear scan that replaces the current best only
    by an item whose key is strictly greater; raises on an empty list. *)
Definition py_max {A : Type} (key : A → pynum) (l : list A) : result A :=
  match l with
  | [] => Raise ValueError
  | x :: l' => Done (foldl (λ best y, if pynum_gt (key y) (key best) then y else best) x l')
  end.

(** ** The CSP (lines 171-201) *)

Definition dummy_constraint (A : string) (a : Z) (B : string) (b : Z) : bool := true.

(** An instance of [PedidosCSP]: the four attributes set by the base
    class constructor and the four set by the subclass. *)
Record PedidosCSP : Type := mkPedidosCSP {
  variables : list string;
  domains : gmap string (list Z);
  neighbors : gmap string (list string);
  constraints : string → Z → string → Z → bool;
  self_pedidos : list (Z * gmap Z Z);
  self_corredores : list (Z * gmap Z Z);
  self_LB : Z;
  self_UB : Z
}.

(** Modelled from the spec: the constructor of the base class [CSP]
    (module [aiaa.csp], not among the sources): it keeps its four
    arguments as the attributes [variables], [domains], [neighbors] and
    [constraints] of the object, whose other attributes are set by the
    subclass. *)
Definition CSP_init (variables : list string) (domains : gmap string (list Z))
    (neighbors : gmap string (list string))
    (constraints : string → Z → string → Z → bool)
    (pedidos corredores : list (Z * gmap Z Z)) (LB UB : Z) : PedidosCSP :=
  mkPedidosCSP variables domains neighbors constraints pedidos corredores LB UB.

(** [PedidosCSP(variaveis, dominios, neighbors, pedidos, corredores, LB, UB)]
    (lines 185-191). *)
Definition PedidosCSP_init (variaveis : list string) (dominios : gmap string (list Z))
    (neighbors : gmap string (list string)) (pedidos corredores : list (Z * gmap Z Z))
    (LB UB : Z) : PedidosCSP :=
  CSP_init variaveis dominios neighbors dummy_constraint pedidos corredores LB UB.

(** Modelled from the spec: the method [choices] of the base class [CSP]
    (module [aiaa.csp], not among the sources): the values of the domain
    of [var], in the order of the domain; a name with no domain is a
    [KeyError]. *)
Definition choices (csp : PedidosCSP) (var : string) : result (list Z) :=
  match domains csp !! var with
  | Some d => Done d
  | None => Raise KeyError
  end.

(** Modelled from the spec: the method [nconflicts] of the base class
    [CSP]: the number of neighbours of [var] that are assigned and whose
    value violates the binary constraint with [var = val]. *)
Definition nconflicts (csp : PedidosCSP) (var : string) (val : Z)
    (assignment : gmap string Z) : result Z :=
  match neighbors csp !! var with
  | Some ns =>
      Done (Z.of_nat (length (List.filter
        (λ var2, match assignment !! var2 with
                 | Some b => negb (constraints csp var val var2 b)
                 | None => false
                 end) ns)))
  | None => Raise KeyError
  end.

(** Modelled from the spec: the method [assign] of the base class [CSP]:
    extends the assignment by the binding [var = val]. *)
Definition assign (var : string) (val : Z) (assignment : gmap string Z)
  : gmap string Z := <[var := val]> assignment.

(** Modelled from the spec: the method [unassign] of the base class
    [CSP]: undoes the binding of [var]. *)
Definition unassign (var : string) (assignment : gmap string Z)
  : gmap string Z := delete var assignment.

(** Modelled from the spec: [first] of [aiaa.utils]: the first element of
    a sequence, [None] when it is empty. *)
Definition first {A : Type} (l : list A) : option A := head l.

Definition goal_test (csp : PedidosCSP) (state : gmap string Z) : bool :=
  let assignment := state in
  if negb (Nat.eqb (size assignment) (length (variables csp))) then false
  else (check_global_constraints assignment (self_pedidos csp) (self_corredores csp)
          (self_LB csp) (self_UB csp)).1.1.

(** ** The enumerator (lines 206-228) *)

(** The state of a run: the copies yielded so far, in order, and the
    working assignment, which the source mutates in place. *)
Definition run_state : Type := list (gmap string Z) * gmap string Z.

(** One turn of the loop over the values of [var] (lines 225-228); [rec]
    is the recursive call. *)
Definition try_value (rec : gmap string Z → result run_state) (csp : PedidosCSP)
    (var : string) (acc : result run_state) (value : Z) : result run_state :=
  st ← acc;
  n ← nconflicts csp var value st.2;
  if n =? 0 then
    r ← rec (assign var value st.2);
    mret (st.1 ++ r.1, unassign var r.2)
  else mret st.

(** The generator run to exhaustion on a working assignment passed by
    value: the result is the list of the yielded copies and the working
    assignment as the search leaves it.  Every recursive call of the
    source spends one unit of [fuel]. *)
Fixpoint all_solutions_fuel (fuel : nat) (csp : PedidosCSP) (assignment : gmap string Z)
  : result run_state :=
  match fuel with
  | O => OutOfFuel
  | S fuel' =>
      if Nat.eqb (size assignment) (length (variables csp)) then
        Done (if goal_test csp assignment then [assignment] else [], assignment)
      else
        match first (List.filter (λ v, bool_decide (assignment !! v = None)) (variables csp)) with
        | None => Raise KeyError
        | Some var =>
            vals ← choices csp var;
            foldl (try_value (all_solutions_fuel fuel' csp) csp var)
                  (Done ([], assignment)) vals
        end
  end.

(** The recursion is at most as deep as there are variables. *)
Definition all_solutions (csp : PedidosCSP) (assignment : gmap string Z)
  : result run_state :=
  all_solutions_fuel (S (length (variables csp))) csp assignment.

(** ** The enumerator on a heap *)

(** The source shares one dictionary between all the recursive calls and
    mutates it in place; what it yields is a copy.  Here a dictionary is
    an object of a heap, named by its address; [l] is the address of the
    working assignment, and a yield allocates the copy at a fresh
    address.  A run returns the addresses yielded, in order, and the heap
    it leaves. *)
Definition heap_state : Type := list nat * gmap nat (gmap string Z).

(** One turn of the loop over the values of [var] (lines 225-228). *)
Definition try_value_heap (rec : gmap nat (gmap string Z) → result heap_state)
    (csp : PedidosCSP) (l : nat) (var : string)
    (acc : result heap_state) (value : Z) : result heap_state :=
  st ← acc;
  n ← nconflicts csp var value (st.2 !!! l);
  if n =? 0 then
    r ← rec (<[l := assign var value (st.2 !!! l)]> st.2);
    mret (st.1 ++ r.1, <[l := unassign var (r.2 !!! l)]> r.2)
  else mret st.

Fixpoint all_solutions_heap (fuel : nat) (csp : PedidosCSP) (l : nat)
    (h : gmap nat (gmap string Z)) : result heap_state :=
  match fuel with
  | O => OutOfFuel
  | S fuel' =>
      let assignment := h !!! l in
      if Nat.eqb (size assignment) (length (variables csp)) then
        if goal_test csp assignment then
          let copy := fresh (dom h) in
          Done ([copy], <[copy := assignment]> h)
        else Done ([], h)
      else
        match first (List.filter (λ v, bool_decide (assignment !! v = None)) (variables csp)) with
        | None => Raise KeyError
        | Some var =>
            vals ← choices csp var;
            foldl (try_value_heap (all_solutions_heap fuel' csp l) csp l var)
                  (Done ([], h)) vals
        end
  end.

(** [all_solutions(csp, assignment)] run to exhaustion; with no second
    argument (lines 217-218) the working dictionary is a new, empty one.
    The result also names the working dictionary. *)
Definition all_solutions_call (csp : PedidosCSP) (assignment : option nat)
    (h : gmap nat (gmap string Z)) : result (nat * heap_state) :=
  match assignment with
  | Some l =>
      r ← all_solutions_heap (S (length (variables csp))) csp l h;
      mret (l, r)
  | None =>
      let l := fresh (dom h) in
      r ← all_solutions_heap (S (length (variables csp))) csp l (<[l := ∅]> h);
      mret (l, r)
  end.

(** ** The ranking of [main] (lines 233-261) *)

(** (assignment, total_unidades, num_corr, obj) *)
Definition tuple : Type := gmap string Z * Z * Z * pynum.

(** What [main] finds: no feasible wave, or the best tuple and the list
    of all of them. *)
Inductive report : Type :=
  | NenhumaSolucao
  | Melhor (best : tuple) (resultados : list tuple).

(** The CSP instance [main] builds (lines 237-241). *)
Definition problema (pedidos corredores : list (Z * gmap Z Z)) (LB UB : Z) : PedidosCSP :=
  let '(variaveis, dominios) := criar_variaveis_e_dominios pedidos corredores in
  let neighbors := criar_neighbors variaveis in
  PedidosCSP_init variaveis dominios neighbors pedidos corredores LB UB.

(** One result tuple (lines 255-258). *)
Definition resultado (pedidos corredores : list (Z * gmap Z Z)) (LB UB : Z)
    (sol : gmap string Z) : result tuple :=
  let total_unidades := (verifica_tamanho_wave sol pedidos LB UB).2 in
  let num_corr := (verifica_corridor_selecionado sol corredores).2 in
  obj ← calcular_valor_objetivo total_unidades num_corr;
  mret (sol, total_unidades, num_corr, obj).

(** [main] up to the choice of the best tuple, on given data. *)
Definition main_on (pedidos corredores : list (Z * gmap Z Z)) (LB UB : Z)
  : result report :=
  let csp_problem := problema pedidos corredores LB UB in
  r ← all_solutions csp_problem ∅;
  let solucao_list := r.1 in
  match solucao_list with
  | [] => mret NenhumaSolucao
  | _ =>
      resultados ← mapM (resultado pedidos corredores LB UB) solucao_list;
      best ← py_max (λ x : tuple, x.2) resultados;
      mret (Melhor best resultados)
  end.

Definition main : result report := main_on pedidos corredores LB UB.


(** ** The naive enumeration the search is compared with *)

(** All the assignments of a value in {0,1} to each name of a list: two
    to the power of its length. *)
Fixpoint all_assignments (vars : list string) : list (gmap string Z) :=
  match vars with
  | [] => [∅]
  | v :: vs =>
      (insert v 0 <$> all_assignments vs) ++ (insert v 1 <$> all_assignments vs)
  end.

(** The names of the variables: the orders, then the corridors. *)
Definition nomes (pedidos corredores : list (Z * gmap Z Z)) : list string :=
  (var_o <$> keys pedidos) ++ (var_c <$> keys corredores).

(** The three checks, each on its own. *)
Definition viavel (pedidos corredores : list (Z * gmap Z Z)) (LB UB : Z)
    (a : gmap string Z) : bool :=
  (verifica_tamanho_wave a pedidos LB UB).1
  && verifica_capacidade a pedidos corredores
  && (verifica_corridor_selecionado a corredores).1.

(** Brute force: every complete assignment, kept when the three checks
    accept it. *)
Definition brute_force (pedidos corredores : list (Z * gmap Z Z)) (LB UB : Z)
  : list (gmap string Z) :=
  List.filter (viavel pedidos corredores LB UB) (all_assignments (nomes pedidos corredores)).

(** ** Notions used by the properties *)

(** The total of the band check is the sum, over the selected orders, of
    the sum of the order's quantities. *)
Definition total_selecionado (a : gmap string Z) (pedidos : list (Z * gmap Z Z)) : Z :=
  py_sum (map (λ e : Z * gmap Z Z, sum_values e.2)
              (List.filter (λ e : Z * gmap Z Z, pedido_sel a e.1) pedidos)).

(** A run that ends leaves the working assignment as it found it, and
    has yielded only assignments that [goal_test] accepts. *)
Definition run_ok (csp : PedidosCSP) (a : gmap string Z) (r : run_state) : Prop :=
  r.2 = a ∧ Forall (λ y, goal_test csp y = true) r.1.

(** The complete assignments that extend [a] on the names [rest], in the
    order in which the search reaches them. *)
Fixpoint extensions (a : gmap string Z) (rest : list string) : list (gmap string Z) :=
  match rest with
  | [] => [a]
  | v :: vs => extensions (<[v := 0]> a) vs ++ extensions (<[v := 1]> a) vs
  end.

(** [best] is at position [i] of [l], nothing in [l] is greater, and
    everything before position [i] is smaller. *)
Definition first_max {A : Type} (key : A → pynum) (l : list A) (i : nat) (best : A)
  : Prop :=
  l !! i = Some best
  ∧ ∃ qb, pynum_value (key best) = Fin qb
    ∧ (∀ r, r ∈ l → ∃ q, pynum_value (key r) = Fin q ∧ (q <= qb)%Q)
    ∧ (∀ j r, (j < i)%nat → l !! j = Some r →
         ∃ q, pynum_value (key r) = Fin q ∧ (q < qb)%Q).

(** The greatest total of a selection of orders: the orders whose sum of
    quantities is positive. *)
Definition max_total (pedidos : list (Z * gmap Z Z)) : Z :=
  py_sum (map (λ e : Z * gmap Z Z, Z.max 0 (sum_values e.2)) pedidos).

(** [x <= q] for a finite [x]. *)
Definition fin_le (x : ext) (q : Q) : bool :=
  match x with
  | Fin a => Qle_bool a q
  | _ => false
  end.

(** [x == q] for a finite [x]. *)
Definition fin_eq (x : ext) (q : Q) : bool :=
  match x with
  | Fin a => Qeq_bool a q
  | _ => false
  end.

(** A run on the heap [h] that matches the run [r] on values: the
    working dictionary holds what [r] leaves, the addresses yielded are
    new, distinct, and hold the assignments yielded by [r], and the
    other objects of [h] are as they were. *)
Definition heap_rel (l : nat) (h : gmap nat (gmap string Z)) (r : run_state)
    (rh : heap_state) : Prop :=
  rh.2 !! l = Some r.2
  ∧ Forall2 (λ l' y, rh.2 !! l' = Some y) rh.1 r.1
  ∧ NoDup rh.1
  ∧ (∀ l', l' ∈ rh.1 → h !! l' = None)
  ∧ (∀ k, k ≠ l → is_Some (h !! k) → rh.2 !! k = h !! k).

(** The same for the outcomes: the run on the heap ends, raises or runs
    out of fuel as the run on values does. *)
Definition res_rel (l : nat) (h : gmap nat (gmap string Z)) (x : result run_state)
    (xh : result heap_state) : Prop :=
  match x with
  | Done r => ∃ rh, xh = Done rh ∧ heap_rel l h r rh
  | Raise e => xh = Raise e
  | OutOfFuel => xh = OutOfFuel
  end.

(** One order of one unit and three corridors that each hold one. *)
Definition um_pedido : list (Z * gmap Z Z) := [ (0, {[ 0 := 1 ]}) ].
Definition tres_corredores : list (Z * gmap Z Z) :=
  [ (0, {[ 0 := 1 ]}); (1, {[ 0 := 1 ]}); (2, {[ 0 := 1 ]}) ].

(** Two orders and two corridors. *)
Definition dois_pedidos : list (Z * gmap Z Z) :=
  [ (0, {[ 0 := 2; 1 := 1 ]}); (1, {[ 1 := 2 ]}) ].
Definition dois_corredores : list (Z * gmap Z Z) :=
  [ (0, {[ 0 := 2; 1 := 1 ]}); (1, {[ 1 := 3; 7 := 4 ]}) ].

(** The best tuple and the result list of [main_on um_pedido
    tres_corredores 1 1]. *)
Definition exemplo_resultados : tuple * list tuple :=
  Eval vm_compute in
    match main_on um_pedido tres_corredores 1 1 with
    | Done (Melhor best rs) => (best, rs)
    | _ => ((∅, 0, 0, PyInt 0), [])
    end.

(** The run of [all_solutions] on the empty dictionary at address 0. *)
Definition exemplo_heap : nat * heap_state :=
  Eval vm_compute in
    match all_solutions_call (problema um_pedido tres_corredores 1 1) (Some 0%nat)
            {[ 0%nat := ∅ ]} with
    | Done x => x
    | _ => (0%nat, ([], ∅))
    end.

(** ** The analysis of the bounds in [main] (lines 279-288) *)

(** One turn of the loop: the search with the bounds [lb] and [ub], and
    the greatest objective of the solutions, [None] when there is none.
    [max(objs)] is the same linear scan as [max] with a key. *)
Definition melhor_objetivo (variaveis : list string) (dominios : gmap string (list Z))
    (neighbors : gmap string (list string)) (pedidos corredores : list (Z * gmap Z Z))
    (lb ub : Z) : result (option pynum) :=
  let csp_temp := PedidosCSP_init variaveis dominios neighbors pedidos corredores lb ub in
  r ← all_solutions csp_temp ∅;
  let sols := r.1 in
  match sols with
  | [] => mret None
  | _ =>
      objs ← mapM (λ sol : gmap string Z,
                let c := check_global_constraints sol pedidos corredores lb ub in
                calcular_valor_objetivo c.1.2 c.2) sols;
      best_obj ← py_max (λ x : pynum, x) objs;
      mret (Some best_obj)
  end.

(** The loop over a list of bounds, on the variables, domains and
    neighbours that [main] built for the search. *)
Definition analise (pedidos corredores : list (Z * gmap Z Z)) (limites : list (Z * Z))
  : result (list (option pynum)) :=
  let '(variaveis, dominios) := criar_variaveis_e_dominios pedidos corredores in
  let neighbors := criar_neighbors variaveis in
  mapM (λ lu : Z * Z,
          melhor_objetivo variaveis dominios neighbors pedidos corredores lu.1 lu.2)
       limites.

(** ** Well-formed quantities *)

(** A corridor table that holds no negative capacity. *)
Definition capacidades_nao_negativas (corredores : list (Z * gmap Z Z)) : Prop :=
  Forall (λ e : Z * gmap Z Z, map_Forall (λ _ q, 0 ≤ q) e.2) corredores.

(** An order table that holds no negative quantity. *)
Definition quantidades_nao_negativas (pedidos : list (Z * gmap Z Z)) : Prop :=
  Forall (λ e : Z * gmap Z Z, map_Forall (λ _ q, 0 ≤ q) e.2) pedidos.

(** * Properties *)

Arguments verifica_tamanho_wave : simpl never.
Arguments verifica_capacidade : simpl never.
Arguments verifica_corridor_selecionado : simpl never.
Arguments check_global_constraints : simpl never.
Arguments py_sum : simpl never.

(** ** Sums *)

Lemma foldl_add (l : list Z) (a : Z) : foldl Z.add a l = a + py_sum l.
Proof.
  unfold py_sum. revert a.
  induction l as [|x l IH]; intros a; simpl; [lia|].
  rewrite (IH (a + x)), (IH (0 + x)). lia.
Qed.

Lemma py_sum_nil : py_sum [] = 0.
Proof. reflexivity. Qed.

Lemma py_sum_cons (x : Z) (l : list Z) : py_sum (x :: l) = x + py_sum l.
Proof. unfold py_sum at 1. simpl. apply foldl_add. Qed.

Lemma py_sum_app (l k : list Z) : py_sum (l ++ k) = py_sum l + py_sum k.
Proof.
  induction l as [|x l IH]; simpl; [reflexivity|].
  rewrite !py_sum_cons, IH. lia.
Qed.

Lemma wave_total (a : gmap string Z) (pedidos : list (Z * gmap Z Z)) (lb ub : Z) :
  (verifica_tamanho_wave a pedidos lb ub).2 = total_selecionado a pedidos.
Proof.
  unfold verifica_tamanho_wave, total_selecionado. cbn [snd].
  enough (G : ∀ t, foldl (λ total (e : Z * gmap Z Z),
             if pedido_sel a e.1 then total + sum_values e.2 else total) t pedidos
          = t + py_sum (map (λ e : Z * gmap Z Z, sum_values e.2)
              (List.filter (λ e : Z * gmap Z Z, pedido_sel a e.1) pedidos))).
  { rewrite G. lia. }
  induction pedidos as [|e l IH]; intros t; simpl.
  - rewrite py_sum_nil. lia.
  - rewrite IH. destruct (pedido_sel a e.1); simpl; rewrite ?py_sum_cons; lia.
Qed.

Lemma wave_ok (a : gmap string Z) (pedidos : list (Z * gmap Z Z)) (lb ub : Z) :
  (verifica_tamanho_wave a pedidos lb ub).1 = true
  ↔ lb ≤ total_selecionado a pedidos ≤ ub.
Proof.
  rewrite <- (wave_total a pedidos lb ub). unfold verifica_tamanho_wave. cbn [fst snd].
  rewrite andb_true_iff, !Z.leb_le. tauto.
Qed.


(** ** The feasibility checks *)

Lemma capacidade_true (a : gmap string Z) (pedidos corredores : list (Z * gmap Z Z)) :
  verifica_capacidade a pedidos corredores = true
  ↔ ∀ item, item ∈ itens_dos_pedidos pedidos →
      demanda a pedidos item ≤ oferta a corredores item.
Proof.
  unfold verifica_capacidade. rewrite forallb_forall. split.
  - intros H item Hin.
    specialize (H item). rewrite <- list_elem_of_In, elem_of_elements in H.
    specialize (H Hin). apply negb_true_iff, Z.ltb_ge in H. exact H.
  - intros H item Hin. rewrite <- list_elem_of_In, elem_of_elements in Hin.
    apply negb_true_iff, Z.ltb_ge, H, Hin.
Qed.


(** C4. The three outcomes of the combinator: the band check fails,
    the band check passes and the capacity check fails (both report the
    computed total and the count 0), and otherwise the answer of the
    activity check with the total and the count of selected corridors. *)
Theorem check_global_constraints_shape (a : gmap string Z)
    (pedidos corredores : list (Z * gmap Z Z)) (lb ub : Z) :
  let wave := verifica_tamanho_wave a pedidos lb ub in
  let cap := verifica_capacidade a pedidos corredores in
  let corr := verifica_corridor_selecionado a corredores in
  (wave.1 = false →
     check_global_constraints a pedidos corredores lb ub = (false, wave.2, 0))
  ∧ (wave.1 = true → cap = false →
     check_global_constraints a pedidos corredores lb ub = (false, wave.2, 0))
  ∧ (wave.1 = true → cap = true →
     check_global_constraints a pedidos corredores lb ub = (corr.1, wave.2, corr.2)).
Proof.
  intros wave cap corr. unfold check_global_constraints.
  fold wave. fold cap. fold corr.
  destruct wave as [ok t], corr as [okc n]; simpl.
  repeat split; intros; subst; simpl; try reflexivity.
  - rewrite H0. reflexivity.
  - rewrite H0. simpl. destruct okc; reflexivity.
Qed.

(** The sentinel is not the count: one selected corridor, count 0. *)
Example check_global_constraints_sentinel :
  check_global_constraints {[ "c0" := 1 ]} pedidos corredores 5 12 = (false, 0, 0)
  ∧ verifica_corridor_selecionado {[ "c0" := 1 ]} corredores = (true, 1).
Proof. split; vm_compute; reflexivity. Qed.

Lemma goal_test_true (csp : PedidosCSP) (a : gmap string Z) :
  goal_test csp a = true
  ↔ size a = length (variables csp)
    ∧ viavel (self_pedidos csp) (self_corredores csp) (self_LB csp) (self_UB csp) a = true.
Proof.
  unfold goal_test, viavel, check_global_constraints.
  destruct (Nat.eqb_spec (size a) (length (variables csp))) as [E|E]; cbn.
  2:{ split; [discriminate | intros [? _]; contradiction]. }
  destruct (verifica_tamanho_wave a (self_pedidos csp) (self_LB csp) (self_UB csp))
    as [[] t]; cbn; [|naive_solver].
  destruct (verifica_capacidade a (self_pedidos csp) (self_corredores csp)); cbn;
    [|naive_solver].
  destruct (verifica_corridor_selecionado a (self_corredores csp)) as [[] n]; cbn;
    naive_solver.
Qed.

Lemma check_true (a : gmap string Z) (pedidos corredores : list (Z * gmap Z Z))
    (lb ub : Z) :
  viavel pedidos corredores lb ub a = true →
  ∃ total n,
    check_global_constraints a pedidos corredores lb ub = (true, total, n)
    ∧ total = total_selecionado a pedidos
    ∧ n = (verifica_corridor_selecionado a corredores).2
    ∧ lb ≤ total ≤ ub ∧ 0 < n.
Proof.
  unfold viavel. rewrite !andb_true_iff. intros [[Hw Hc] Ha].
  pose proof (proj1 (wave_ok a pedidos lb ub) Hw) as Hband.
  pose proof (wave_total a pedidos lb ub) as Ht.
  unfold check_global_constraints.
  destruct (verifica_tamanho_wave a pedidos lb ub) as [ok t]; cbn in *. subst ok.
  rewrite Hc. cbn.
  unfold verifica_corridor_selecionado in *. cbn in *. rewrite Ha. cbn.
  eexists _, _. split; [reflexivity|]. rewrite Ht.
  apply Z.ltb_lt in Ha. repeat split; lia.
Qed.

(** *** Absent variables count as 0 *)

Lemma size_list_to_set_le (l : list string) :
  (size (list_to_set l : gset string) ≤ length l)%nat.
Proof.
  induction l as [|x l IH].
  - rewrite list_to_set_nil, size_empty. reflexivity.
  - rewrite list_to_set_cons. cbn [length].
    destruct (decide (x ∈ (list_to_set l : gset string))) as [Hin|Hnin].
    + replace ({[x]} ∪ list_to_set l : gset string) with (list_to_set l : gset string)
        by set_solver.
      lia.
    + rewrite size_union by set_solver. rewrite size_singleton. lia.
Qed.


Lemma get0_zeros (a : gmap string Z) (X : gset string) (k : string) :
  get0 (a ∪ gset_to_gmap 0 X) k = get0 a k.
Proof.
  unfold get0. rewrite lookup_union.
  destruct (a !! k) as [v|] eqn:E; simpl.
  - destruct (gset_to_gmap 0 X !! k); reflexivity.
  - rewrite lookup_gset_to_gmap. destruct (decide (k ∈ X)) as [Hk|Hk].
    + rewrite option_guard_True by exact Hk. reflexivity.
    + rewrite option_guard_False by exact Hk. reflexivity.
Qed.

(** C9. The three checks and the combinator are functions of any
    assignment, partial or not, and give the same answer on it as on the
    assignment completed with 0 on any set of names; [goal_test] refuses
    every assignment whose size is not the number of variables, hence
    every assignment of the variables that leaves one of them unbound. *)
Theorem checks_partial (a : gmap string Z) (X : gset string)
    (pedidos corredores : list (Z * gmap Z Z)) (lb ub : Z) :
  let a0 := a ∪ gset_to_gmap 0 X in
  verifica_tamanho_wave a0 pedidos lb ub = verifica_tamanho_wave a pedidos lb ub
  ∧ verifica_capacidade a0 pedidos corredores = verifica_capacidade a pedidos corredores
  ∧ verifica_corridor_selecionado a0 corredores = verifica_corridor_selecionado a corredores
  ∧ check_global_constraints a0 pedidos corredores lb ub
    = check_global_constraints a pedidos corredores lb ub
  ∧ (∀ csp : PedidosCSP, size a ≠ length (variables csp) → goal_test csp a = false)
  ∧ (∀ csp : PedidosCSP,
       dom a ⊆ list_to_set (variables csp) →
       (∃ v, v ∈ variables csp ∧ a !! v = None) →
       goal_test csp a = false).
Proof.
  intros a0.
  assert (Hsel_o : ∀ o, pedido_sel a0 o = pedido_sel a o).
  { intros o. unfold pedido_sel, a0. rewrite get0_zeros. reflexivity. }
  assert (Hsel_c : ∀ c, corredor_sel a0 c = corredor_sel a c).
  { intros c. unfold corredor_sel, a0. rewrite get0_zeros. reflexivity. }
  assert (Hw : verifica_tamanho_wave a0 pedidos lb ub = verifica_tamanho_wave a pedidos lb ub).
  { unfold verifica_tamanho_wave.
    replace (foldl (λ total (e : Z * gmap Z Z),
               if pedido_sel a0 e.1 then total + sum_values e.2 else total) 0 pedidos)
      with (foldl (λ total (e : Z * gmap Z Z),
               if pedido_sel a e.1 then total + sum_values e.2 else total) 0 pedidos);
      [reflexivity|].
    generalize 0. induction pedidos as [|e l IH]; intros t; simpl; [reflexivity|].
    rewrite Hsel_o. apply IH. }
  assert (Hd : ∀ item, demanda a0 pedidos item = demanda a pedidos item).
  { intros item. unfold demanda. do 2 f_equal.
    apply filter_ext. intros e. apply Hsel_o. }
  assert (Ho : ∀ item, oferta a0 corredores item = oferta a corredores item).
  { intros item. unfold oferta. do 2 f_equal.
    apply filter_ext. intros e. apply Hsel_c. }
  assert (Hc : verifica_capacidade a0 pedidos corredores
               = verifica_capacidade a pedidos corredores).
  { unfold verifica_capacidade.
    induction (elements (itens_dos_pedidos pedidos)) as [|item l IH]; simpl;
      [reflexivity|].
    rewrite Hd, Ho, IH. reflexivity. }
  assert (Hn : verifica_corridor_selecionado a0 corredores
               = verifica_corridor_selecionado a corredores).
  { unfold verifica_corridor_selecionado.
    replace (map (λ e : Z * gmap Z Z, get0 a0 (var_c e.1)) corredores)
      with (map (λ e : Z * gmap Z Z, get0 a (var_c e.1)) corredores); [reflexivity|].
    apply map_ext. intros e. unfold a0. rewrite get0_zeros. reflexivity. }
  assert (Hg : ∀ csp : PedidosCSP,
            size a ≠ length (variables csp) → goal_test csp a = false).
  { intros csp Hsize. unfold goal_test.
    destruct (Nat.eqb_spec (size a) (length (variables csp))); [contradiction|reflexivity]. }
  repeat split; try assumption.
  - unfold check_global_constraints. rewrite Hw, Hc, Hn. reflexivity.
  - intros csp Hsub (v & Hv & Hnone). apply Hg.
    assert (Hlt : (size (dom a) < size (list_to_set (variables csp) : gset string))%nat).
    { apply subset_size. split; [exact Hsub|]. intros Hsup.
      apply not_elem_of_dom in Hnone. apply Hnone, Hsup, elem_of_list_to_set, Hv. }
    rewrite size_dom in Hlt.
    pose proof (size_list_to_set_le (variables csp)) as Hle. lia.
Qed.

(** ** The variables of a problem *)

Lemma var_o_inj (o o' : Z) : var_o o = var_o o' → o = o'.
Proof. unfold var_o. simpl. intros H. injection H as H. exact (pretty_Z_inj _ _ H). Qed.

Lemma var_c_inj (c c' : Z) : var_c c = var_c c' → c = c'.
Proof. unfold var_c. simpl. intros H. injection H as H. exact (pretty_Z_inj _ _ H). Qed.

Lemma var_o_c (o c : Z) : var_o o ≠ var_c c.
Proof. unfold var_o, var_c. simpl. intros H. discriminate H. Qed.

Lemma NoDup_nomes (pedidos corredores : list (Z * gmap Z Z)) :
  NoDup (keys pedidos) → NoDup (keys corredores) → NoDup (nomes pedidos corredores).
Proof.
  intros Hp Hc. unfold nomes. apply NoDup_app. repeat split.
  - apply (NoDup_fmap_2_strong var_o); [|exact Hp]. intros x y _ _. apply var_o_inj.
  - intros v Ho Hcv.
    apply list_elem_of_fmap in Ho as (o & -> & _).
    apply list_elem_of_fmap in Hcv as (c & E & _).
    exact (var_o_c o c E).
  - apply (NoDup_fmap_2_strong var_c); [|exact Hc]. intros x y _ _. apply var_c_inj.
Qed.

Lemma foldl_add_var (nome : Z → string) (ks : list Z)
    (acc : list string * gmap string (list Z)) :
  let r := foldl (λ (acc : list string * gmap string (list Z)) (k : Z),
                    (acc.1 ++ [nome k], <[nome k := [0; 1]]> acc.2)) acc ks in
  r.1 = acc.1 ++ (nome <$> ks)
  ∧ ∀ v, r.2 !! v = if decide (v ∈ nome <$> ks) then Some [0; 1] else acc.2 !! v.
Proof.
  revert acc. induction ks as [|k ks IH]; intros acc; simpl.
  - rewrite app_nil_r. split; [reflexivity|]. intros v.
    destruct (decide (v ∈ [])) as [H|H]; [inversion H | reflexivity].
  - destruct (IH (acc.1 ++ [nome k], <[nome k := [0; 1]]> acc.2)) as [E1 E2].
    simpl in *. split.
    + rewrite E1, <- app_assoc. reflexivity.
    + intros v. rewrite E2.
      destruct (decide (v ∈ nome <$> ks)) as [H|H].
      * rewrite decide_True by (right; exact H). reflexivity.
      * destruct (decide (v = nome k)) as [->|Hne].
        -- rewrite lookup_insert_eq, decide_True by left. reflexivity.
        -- rewrite lookup_insert_ne by congruence.
           rewrite decide_False; [reflexivity|].
           intros Hin. apply elem_of_cons in Hin as [?|?]; contradiction.
Qed.

Lemma criar_variaveis_spec (pedidos corredores : list (Z * gmap Z Z)) :
  let r := criar_variaveis_e_dominios pedidos corredores in
  r.1 = nomes pedidos corredores
  ∧ ∀ v, v ∈ nomes pedidos corredores → r.2 !! v = Some [0; 1].
Proof.
  unfold criar_variaveis_e_dominios, nomes. simpl.
  destruct (foldl_add_var var_o (keys pedidos) ([], ∅)) as [E1 E2].
  destruct (foldl_add_var var_c (keys corredores)
              (foldl (λ (acc : list string * gmap string (list Z)) (k : Z),
                 (acc.1 ++ [var_o k], <[var_o k := [0; 1]]> acc.2)) ([], ∅) (keys pedidos)))
    as [F1 F2].
  simpl in *. split.
  - rewrite F1, E1. reflexivity.
  - intros v Hv. rewrite F2.
    destruct (decide (v ∈ var_c <$> keys corredores)) as [H|H]; [reflexivity|].
    rewrite E2. apply elem_of_app in Hv as [Hv|Hv]; [|contradiction].
    rewrite decide_True by exact Hv. reflexivity.
Qed.

Lemma foldl_neighbors (all l : list string) (v : string)
    (d : gmap string (list string)) :
  v ∈ l ∨ is_Some (d !! v) →
  is_Some (foldl (λ (d : gmap string (list string)) var,
                    <[var := filter (λ v, v ≠ var) all]> d) d l !! v).
Proof.
  revert d. induction l as [|x l IH]; intros d [Hv|Hv]; simpl.
  - inversion Hv.
  - exact Hv.
  - apply IH. destruct (decide (v = x)) as [->|Hne].
    + right. rewrite lookup_insert_eq. eauto.
    + left. apply elem_of_cons in Hv as [?|?]; [contradiction|assumption].
  - apply IH. right. destruct (decide (v = x)) as [->|Hne].
    + rewrite lookup_insert_eq. eauto.
    + rewrite lookup_insert_ne by congruence. exact Hv.
Qed.

Lemma criar_neighbors_spec (variaveis : list string) (v : string) :
  v ∈ variaveis → is_Some (criar_neighbors variaveis !! v).
Proof. intros Hv. apply foldl_neighbors. left. exact Hv. Qed.

Lemma all_assignments_length (vars : list string) :
  length (all_assignments vars) = (2 ^ length vars)%nat.
Proof.
  induction vars as [|v vs IH]; simpl; [reflexivity|].
  rewrite length_app, !length_fmap, IH. lia.
Qed.

Lemma all_assignments_dom (vars : list string) (b : gmap string Z) :
  b ∈ all_assignments vars → dom b = list_to_set vars.
Proof.
  revert b. induction vars as [|v vs IH]; intros b; simpl.
  - intros H. apply list_elem_of_singleton in H. subst b. apply dom_empty_L.
  - rewrite elem_of_app, !list_elem_of_fmap.
    intros [(b' & -> & Hb')|(b' & -> & Hb')]; rewrite dom_insert_L, (IH b' Hb');
      reflexivity.
Qed.

(** ** The enumerator *)

Lemma foldl_try_value_raise rec csp var (e : exc) (vals : list Z) :
  foldl (try_value rec csp var) (Raise e) vals = Raise e.
Proof. induction vals as [|v vals IH]; simpl; [reflexivity | exact IH]. Qed.

Lemma foldl_try_value_fuel rec csp var (vals : list Z) :
  foldl (try_value rec csp var) OutOfFuel vals = OutOfFuel.
Proof. induction vals as [|v vals IH]; simpl; [reflexivity | exact IH]. Qed.

Lemma first_unassigned (a : gmap string Z) (vars : list string) (var : string) :
  first (List.filter (λ v, bool_decide (a !! v = None)) vars) = Some var →
  var ∈ vars ∧ a !! var = None.
Proof.
  unfold first. intros H. apply head_Some_elem_of in H.
  apply list_elem_of_In, filter_In in H as [Hin Hb].
  apply bool_decide_eq_true in Hb. split; [apply list_elem_of_In, Hin | exact Hb].
Qed.

(** *** What holds of every run, whatever the CSP *)

Section any_csp.
Variable csp : PedidosCSP.

Lemma loop_ok (rec : gmap string Z → result run_state) (var : string)
    (Hrec : ∀ a r, rec a = Done r → run_ok csp a r) (a0 : gmap string Z)
    (Hvar : a0 !! var = None) (vals : list Z) :
  ∀ ys0 r,
    foldl (try_value rec csp var) (Done (ys0, a0)) vals = Done r →
    r.2 = a0 ∧ ∃ ys, r.1 = ys0 ++ ys ∧ Forall (λ y, goal_test csp y = true) ys.
Proof.
  induction vals as [|value vals IH]; intros ys0 r; simpl.
  - intros [= <-]. simpl. split; [reflexivity|].
    exists []. rewrite app_nil_r. split; [reflexivity | constructor].
  - destruct (nconflicts csp var value a0) as [n| |]; simpl;
      rewrite ?foldl_try_value_raise, ?foldl_try_value_fuel; try discriminate.
    destruct (n =? 0); [|apply IH].
    destruct (rec (assign var value a0)) as [r1| |] eqn:E1; simpl;
      rewrite ?foldl_try_value_raise, ?foldl_try_value_fuel; try discriminate.
    destruct (Hrec _ _ E1) as [E2 F1]. rewrite E2.
    unfold unassign, assign. rewrite delete_insert_id by exact Hvar.
    intros H. destruct (IH _ _ H) as [Ea (ys & Eys & F2)].
    split; [exact Ea|]. exists (r1.1 ++ ys). rewrite Eys, app_assoc.
    split; [reflexivity | apply Forall_app; split; assumption].
Qed.

Lemma all_solutions_fuel_ok (fuel : nat) :
  ∀ a r, all_solutions_fuel fuel csp a = Done r → run_ok csp a r.
Proof.
  induction fuel as [|fuel IH]; intros a r; simpl; [discriminate|].
  destruct (Nat.eqb (size a) (length (variables csp))).
  - intros [= <-]. split; [reflexivity|]. simpl.
    destruct (goal_test csp a) eqn:G; repeat constructor. exact G.
  - destruct (first _) as [var|] eqn:Ef; [|discriminate].
    apply first_unassigned in Ef as [_ Hvar].
    destruct (choices csp var) as [vals| |]; simpl; try discriminate.
    intros H. destruct (loop_ok _ var IH a Hvar vals [] r H) as [Ea (ys & Eys & F)].
    split; [exact Ea|]. rewrite Eys. exact F.
Qed.
End any_csp.

(** *** A CSP whose binary constraint never fails *)

Lemma extensions_union (vs : list string) :
  NoDup vs → ∀ a : gmap string Z,
  extensions a vs = (λ b, b ∪ a) <$> all_assignments vs.
Proof.
  induction 1 as [|v vs Hv Hnd IH]; intros a; simpl.
  - rewrite (left_id_L ∅ (∪)). reflexivity.
  - rewrite !IH, fmap_app, <- !list_fmap_compose. f_equal.
    all: apply list_fmap_ext; intros i b Hb; simpl.
    all: apply list_elem_of_lookup_2, all_assignments_dom in Hb.
    all: assert (b !! v = None) as Hbv
           by (apply not_elem_of_dom; rewrite Hb; set_solver).
    all: rewrite <- insert_union_l, <- insert_union_r by exact Hbv; reflexivity.
Qed.

Lemma extensions_empty (vs : list string) :
  NoDup vs → extensions ∅ vs = all_assignments vs.
Proof.
  intros Hnd. rewrite extensions_union by exact Hnd.
  rewrite <- (list_fmap_id (all_assignments vs)) at 2.
  apply list_fmap_ext. intros i b _. apply (right_id_L ∅ (∪)).
Qed.

Lemma all_assignments_size (vars : list string) (b : gmap string Z) :
  NoDup vars → b ∈ all_assignments vars → size b = length vars.
Proof.
  intros Hnd Hb. apply all_assignments_dom in Hb.
  rewrite <- size_dom, Hb. apply size_list_to_set, Hnd.
Qed.

Section dummy_csp.
Variable csp : PedidosCSP.
Hypothesis vars_nodup : NoDup (variables csp).
Hypothesis dom_01 : ∀ v, v ∈ variables csp → domains csp !! v = Some [0; 1].
Hypothesis has_neighbors : ∀ v, v ∈ variables csp → is_Some (neighbors csp !! v).
Hypothesis no_conflict : ∀ A a B b, constraints csp A a B b = true.

(** The conflict count is 0 on every branch: nothing is pruned. *)
Lemma nconflicts_zero (var : string) (val : Z) (a : gmap string Z) :
  var ∈ variables csp → nconflicts csp var val a = Done 0.
Proof.
  intros Hv. unfold nconflicts.
  destruct (has_neighbors var Hv) as [ns ->]. f_equal.
  induction ns as [|n ns IH]; simpl; [reflexivity|].
  destruct (a !! n); [rewrite no_conflict|]; simpl; exact IH.
Qed.

Lemma filter_unassigned (a : gmap string Z) (pre rest : list string) :
  (∀ x, x ∈ pre → is_Some (a !! x)) →
  List.filter (λ v, bool_decide (a !! v = None)) (pre ++ rest)
  = List.filter (λ v, bool_decide (a !! v = None)) rest.
Proof.
  intros Hpre. induction pre as [|x pre IH]; simpl; [reflexivity|].
  destruct (Hpre x) as [y Hy]; [left|].
  rewrite Hy. rewrite bool_decide_eq_false_2 by discriminate.
  apply IH. intros z Hz. apply Hpre. right. exact Hz.
Qed.

Lemma all_solutions_fuel_extensions (rest : list string) :
  ∀ (pre : list string) (a : gmap string Z) (fuel : nat),
    variables csp = pre ++ rest →
    (∀ x, x ∈ pre ↔ is_Some (a !! x)) →
    size a = length pre →
    (length rest < fuel)%nat →
    all_solutions_fuel fuel csp a
    = Done (List.filter (goal_test csp) (extensions a rest), a).
Proof.
  induction rest as [|v rest IH]; intros pre a fuel Hvars Hpre Hsize Hfuel;
    (destruct fuel as [|fuel]; [simpl in Hfuel; lia|]); simpl.
  - rewrite Hvars, app_nil_r, Hsize, Nat.eqb_refl. reflexivity.
  - assert (Hne : Nat.eqb (size a) (length (variables csp)) = false).
    { apply Nat.eqb_neq. rewrite Hvars, length_app, Hsize. simpl. lia. }
    rewrite Hne.
    assert (Hv : a !! v = None).
    { apply eq_None_not_Some. rewrite <- Hpre. intros Hin.
      rewrite Hvars in vars_nodup. apply NoDup_app in vars_nodup as (_ & Hd & _).
      apply (Hd v Hin). left. }
    assert (Hin : v ∈ variables csp).
    { rewrite Hvars. apply elem_of_app. right. left. }
    rewrite Hvars at 1. rewrite filter_unassigned by (intros x; apply Hpre).
    simpl. rewrite Hv. rewrite bool_decide_eq_true_2 by reflexivity. simpl.
    unfold choices. rewrite (dom_01 v Hin). simpl.
    assert (Hstep : ∀ val, all_solutions_fuel fuel csp (assign v val a)
              = Done (List.filter (goal_test csp) (extensions (<[v := val]> a) rest),
                      <[v := val]> a)).
    { intros val. apply (IH (pre ++ [v])).
      - rewrite Hvars, <- app_assoc. reflexivity.
      - intros x. unfold assign. rewrite elem_of_app, list_elem_of_singleton, Hpre.
        rewrite lookup_insert_is_Some. destruct (decide (v = x)); naive_solver.
      - unfold assign. rewrite map_size_insert_None by exact Hv.
        rewrite length_app, Hsize. simpl. lia.
      - simpl in Hfuel. lia. }
    rewrite !nconflicts_zero by exact Hin. simpl.
    rewrite (Hstep 0). simpl. unfold unassign at 2.
    rewrite delete_insert_id by exact Hv.
    rewrite !nconflicts_zero by exact Hin. simpl.
    rewrite (Hstep 1). simpl. unfold unassign.
    rewrite delete_insert_id by exact Hv.
    rewrite List.filter_app. reflexivity.
Qed.

Lemma all_solutions_extensions :
  all_solutions csp ∅
  = Done (List.filter (goal_test csp) (all_assignments (variables csp)), ∅).
Proof.
  unfold all_solutions.
  rewrite (all_solutions_fuel_extensions (variables csp) []).
  - rewrite extensions_empty by exact vars_nodup. reflexivity.
  - reflexivity.
  - intros x. rewrite lookup_empty. split; [inversion 1 | intros [? ?]; discriminate].
  - reflexivity.
  - lia.
Qed.
End dummy_csp.

(** *** The CSP of a problem *)

Lemma problema_fields (pedidos corredores : list (Z * gmap Z Z)) (lb ub : Z) :
  problema pedidos corredores lb ub
  = mkPedidosCSP (nomes pedidos corredores)
      (criar_variaveis_e_dominios pedidos corredores).2
      (criar_neighbors (nomes pedidos corredores))
      dummy_constraint pedidos corredores lb ub.
Proof.
  unfold problema, PedidosCSP_init, CSP_init.
  pose proof (criar_variaveis_spec pedidos corredores) as [E _].
  destruct (criar_variaveis_e_dominios pedidos corredores) as [vs ds].
  simpl in E. subst vs. reflexivity.
Qed.

Lemma problema_variables (pedidos corredores : list (Z * gmap Z Z)) (lb ub : Z) :
  variables (problema pedidos corredores lb ub) = nomes pedidos corredores.
Proof. rewrite problema_fields. reflexivity. Qed.

Lemma problema_nconflicts (pedidos corredores : list (Z * gmap Z Z)) (lb ub : Z)
    (var : string) (val : Z) (a : gmap string Z) :
  var ∈ nomes pedidos corredores →
  nconflicts (problema pedidos corredores lb ub) var val a = Done 0.
Proof.
  intros Hv. apply nconflicts_zero; rewrite problema_fields; simpl.
  - intros v. apply criar_neighbors_spec.
  - reflexivity.
  - exact Hv.
Qed.

Lemma problema_solutions (pedidos corredores : list (Z * gmap Z Z)) (lb ub : Z) :
  NoDup (keys pedidos) → NoDup (keys corredores) →
  all_solutions (problema pedidos corredores lb ub) ∅
  = Done (brute_force pedidos corredores lb ub, ∅).
Proof.
  intros Hp Hc. pose proof (NoDup_nomes _ _ Hp Hc) as Hnd.
  rewrite all_solutions_extensions.
  - rewrite problema_variables. unfold brute_force. do 2 f_equal.
    apply List.filter_ext_in. intros b Hb. apply eq_true_iff_eq.
    rewrite goal_test_true, problema_variables, problema_fields. simpl.
    apply list_elem_of_In, all_assignments_size in Hb; [|exact Hnd]. tauto.
  - rewrite problema_variables. exact Hnd.
  - rewrite problema_fields. simpl.
    apply (proj2 (criar_variaveis_spec pedidos corredores)).
  - rewrite problema_fields. simpl. intros v. apply criar_neighbors_spec.
  - rewrite problema_fields. reflexivity.
Qed.

Lemma brute_force_elem (pedidos corredores : list (Z * gmap Z Z)) (lb ub : Z)
    (y : gmap string Z) :
  y ∈ brute_force pedidos corredores lb ub
  ↔ y ∈ all_assignments (nomes pedidos corredores)
    ∧ viavel pedidos corredores lb ub y = true.
Proof. unfold brute_force. rewrite !list_elem_of_In, filter_In. reflexivity. Qed.

(** The complete {0,1}-assignments over a list of names are exactly the
    members of [all_assignments]. *)
Lemma elem_of_all_assignments (vars : list string) :
  NoDup vars → ∀ a : gmap string Z,
  a ∈ all_assignments vars
  ↔ dom a = list_to_set vars ∧ ∀ v x, a !! v = Some x → x = 0 ∨ x = 1.
Proof.
  induction 1 as [|v vs Hv Hnd IH]; intros a; simpl.
  - rewrite list_elem_of_singleton. split.
    + intros ->. split; [apply dom_empty_L|]. intros v x. rewrite lookup_empty. discriminate.
    + intros [Hd _]. apply dom_empty_iff_L in Hd. exact Hd.
  - rewrite elem_of_app, !list_elem_of_fmap. split.
    + intros [(b & -> & Hb)|(b & -> & Hb)]; apply IH in Hb as [Hd H01];
        (split; [rewrite dom_insert_L, Hd; reflexivity|]);
        intros w x; (destruct (decide (v = w)) as [->|Hne];
          [rewrite lookup_insert_eq; intros [= <-]; auto
          |rewrite lookup_insert_ne by exact Hne; apply H01]).
    + intros [Hd H01].
      assert (Hin : v ∈ dom a) by (rewrite Hd; set_solver).
      apply elem_of_dom in Hin as [x Hx].
      assert (Hb : delete v a ∈ all_assignments vs).
      { apply IH. split.
        - rewrite dom_delete_L, Hd.
          apply set_eq. intros w. rewrite elem_of_difference, elem_of_union,
            elem_of_singleton, !elem_of_list_to_set.
          split; [tauto|]. intros Hw. split; [tauto|]. intros ->. contradiction.
        - intros w y Hy. apply lookup_delete_Some in Hy as [_ Hy]. exact (H01 _ _ Hy). }
      destruct (H01 _ _ Hx) as [->| ->]; [left | right];
        exists (delete v a); (split; [|exact Hb]);
        symmetry; apply insert_delete_id; exact Hx.
Qed.

(** C1. On any problem data, the search ends, and every assignment
    it yields is complete (it binds exactly the variables of the problem)
    and passes the combinator again, with a total within the band and a
    positive corridor count. *)
Theorem all_solutions_sound (pedidos corredores : list (Z * gmap Z Z)) (lb ub : Z) :
  NoDup (keys pedidos) → NoDup (keys corredores) →
  ∃ ys, all_solutions (problema pedidos corredores lb ub) ∅ = Done (ys, ∅)
    ∧ ∀ y, y ∈ ys →
        dom y = list_to_set (nomes pedidos corredores)
        ∧ goal_test (problema pedidos corredores lb ub) y = true
        ∧ ∃ total n,
            check_global_constraints y pedidos corredores lb ub = (true, total, n)
            ∧ lb ≤ total ≤ ub ∧ 0 < n.
Proof.
  intros Hp Hc. eexists. split; [apply problema_solutions; assumption|].
  intros y Hy.
  pose proof (all_solutions_fuel_ok _ _ _ _ (problema_solutions _ _ lb ub Hp Hc))
    as [_ Hgoal].
  apply brute_force_elem in Hy as Hy'. destruct Hy' as [Hall Hv].
  split; [apply all_assignments_dom, Hall|].
  split; [exact (proj1 (Forall_forall _ _) Hgoal y Hy)|].
  destruct (check_true _ _ _ _ _ Hv) as (total & n & E & _ & _ & Hb & Hn).
  exists total, n. auto.
Qed.

(** C2. On any problem data, the search yields the assignments of
    the brute-force enumeration, in the same order: all the 2^(n+m)
    complete {0,1}-assignments, filtered by the three checks.  The
    conflict count of every candidate binding is 0, so no branch is
    pruned. *)
Theorem all_solutions_complete (pedidos corredores : list (Z * gmap Z Z)) (lb ub : Z) :
  NoDup (keys pedidos) → NoDup (keys corredores) →
  all_solutions (problema pedidos corredores lb ub) ∅
  = Done (brute_force pedidos corredores lb ub, ∅)
  ∧ (∀ y, y ∈ brute_force pedidos corredores lb ub
        ↔ (dom y = list_to_set (nomes pedidos corredores)
           ∧ ∀ v x, y !! v = Some x → x = 0 ∨ x = 1)
          ∧ (verifica_tamanho_wave y pedidos lb ub).1 = true
          ∧ verifica_capacidade y pedidos corredores = true
          ∧ (verifica_corridor_selecionado y corredores).1 = true)
  ∧ length (all_assignments (nomes pedidos corredores))
    = (2 ^ (length pedidos + length corredores))%nat
  ∧ (∀ var val a, var ∈ variables (problema pedidos corredores lb ub) →
       nconflicts (problema pedidos corredores lb ub) var val a = Done 0).
Proof.
  intros Hp Hc. split; [apply problema_solutions; assumption|]. split; [|split].
  - intros y. rewrite brute_force_elem.
    rewrite (elem_of_all_assignments _ (NoDup_nomes _ _ Hp Hc)).
    unfold viavel. rewrite !andb_true_iff. tauto.
  - rewrite all_assignments_length. unfold nomes, keys.
    rewrite length_app, !length_fmap. reflexivity.
  - intros var val a. rewrite problema_variables. apply problema_nconflicts.
Qed.

(** ** True division never gives a NaN *)

Lemma shr_1_nonneg (mrs : shr_record) : 0 <= shr_m mrs -> 0 <= shr_m (shr_1 mrs).
Proof.
  destruct mrs as [m r s]. simpl.
  destruct m as [|p|p]; [| destruct p | destruct p]; simpl; lia.
Qed.

Lemma iter_shr_1_nonneg (p : positive) (mrs : shr_record) :
  0 <= shr_m mrs -> 0 <= shr_m (SpecFloat.iter_pos shr_1 p mrs).
Proof.
  revert mrs. induction p as [p IH|p IH|]; intros mrs H; simpl.
  - apply IH, IH, shr_1_nonneg, H.
  - apply IH, IH, H.
  - apply shr_1_nonneg, H.
Qed.

Lemma shr_nonneg (mrs : shr_record) (e n : Z) :
  0 <= shr_m mrs -> 0 <= shr_m (fst (shr mrs e n)).
Proof.
  intros H. unfold shr. destruct n; simpl; try exact H. apply iter_shr_1_nonneg, H.
Qed.

Lemma shr_record_of_loc_m (m : Z) (l : location) : shr_m (shr_record_of_loc m l) = m.
Proof. destruct l as [|[]]; reflexivity. Qed.

Lemma shr_fexp_nonneg (prec emax m e : Z) (l : location) :
  0 <= m -> 0 <= shr_m (fst (shr_fexp prec emax m e l)).
Proof.
  intros H. unfold shr_fexp. apply shr_nonneg. rewrite shr_record_of_loc_m. exact H.
Qed.

Lemma round_nearest_even_nonneg (m : Z) (l : location) :
  0 <= m -> 0 <= round_nearest_even m l.
Proof.
  intros H. unfold round_nearest_even.
  destruct l as [|[]]; try destruct (Z.even m); lia.
Qed.

Lemma binary_round_aux_not_nan (prec emax : Z) (s : bool) (m e : Z) (l : location) :
  0 <= m -> binary_round_aux prec emax s m e l <> S754_nan.
Proof.
  intros H. unfold binary_round_aux.
  pose proof (shr_fexp_nonneg prec emax m e l H) as H1.
  destruct (shr_fexp prec emax m e l) as [mrs' e']. simpl in H1.
  pose proof (shr_fexp_nonneg prec emax _ e' loc_Exact
                (round_nearest_even_nonneg _ (loc_of_shr_record mrs') H1)) as H2.
  destruct (shr_fexp prec emax _ e' loc_Exact) as [mrs'' e'']. simpl in H2.
  destruct (shr_m mrs'') as [|p|p]; try discriminate; [|lia].
  destruct (e'' <=? emax - prec); discriminate.
Qed.

Lemma SFdiv_core_nonneg (prec emax : Z) (m1 m2 : positive) (e1 e2 : Z) :
  0 <= fst (fst (SFdiv_core_binary prec emax (Z.pos m1) e1 (Z.pos m2) e2)).
Proof.
  unfold SFdiv_core_binary.
  set (s := e1 - e2 - _).
  set (m' := match s with 0 => Z.pos m1 | Z.pos _ => Z.shiftl (Z.pos m1) s | Z.neg _ => 0 end).
  assert (Hm : 0 <= m').
  { subst m'. destruct s; try lia. apply Z.shiftl_nonneg. lia. }
  pose proof (Z.div_eucl_eq m' (Z.pos m2) ltac:(lia)) as E.
  pose proof (Z.mod_pos_bound m' (Z.pos m2) ltac:(lia)) as B.
  unfold Z.modulo in B.
  change (IntDef.Z.div_eucl m' (Z.pos m2)) with (Z.div_eucl m' (Z.pos m2)).
  destruct (Z.div_eucl m' (Z.pos m2)) as [q r]. simpl. nia.
Qed.

Lemma int_truediv_fin (a b : Z) (f : spec_float) :
  int_truediv a b = Done f →
  f = SFdiv 53 1024 (z2sf a) (z2sf b) ∧ b ≠ 0 ∧ ∃ q, sf_value f = Fin q.
Proof.
  unfold int_truediv. destruct (Z.eqb_spec b 0) as [|Hb]; [discriminate|].
  intros H.
  assert (Hf : f = SFdiv 53 1024 (z2sf a) (z2sf b)).
  { destruct (SFdiv 53 1024 (z2sf a) (z2sf b)); congruence. }
  split; [exact Hf|]. split; [exact Hb|].
  assert (Hnan : f ≠ S754_nan).
  { rewrite Hf. destruct a as [|pa|pa], b as [|pb|pb]; try contradiction;
      try discriminate; simpl.
    all: pose proof (SFdiv_core_nonneg 53 1024 pa pb 0 0) as Hq.
    all: destruct (SFdiv_core_binary 53 1024 (Z.pos pa) 0 (Z.pos pb) 0) as [[mz ez] lz].
    all: apply binary_round_aux_not_nan; exact Hq. }
  destruct f as [s|s| |s m e]; simpl.
  - eauto.
  - rewrite <- Hf in H. discriminate.
  - contradiction.
  - destruct e; eauto.
Qed.

Lemma calcular_valor_objetivo_pos (total n : Z) (obj : pynum) :
  0 < n → calcular_valor_objetivo total n = Done obj →
  ∃ f q, obj = PyFloat f ∧ f = SFdiv 53 1024 (z2sf total) (z2sf n)
         ∧ pynum_value obj = Fin q.
Proof.
  intros Hn. unfold calcular_valor_objetivo.
  rewrite (proj2 (Z.ltb_lt 0 n) Hn).
  destruct (int_truediv total n) as [f| |] eqn:E; simpl; try discriminate.
  intros [= <-]. destruct (int_truediv_fin _ _ _ E) as (Hf & _ & q & Hq).
  exists f, q. auto.
Qed.

(** ** The linear scan for the maximum *)

Lemma ext_gt_fin (a b : Q) : ext_gt (Fin a) (Fin b) = true ↔ (b < a)%Q.
Proof.
  simpl. rewrite negb_true_iff, <- not_true_iff_false, Qle_bool_iff.
  split; [apply Qnot_le_lt | apply Qlt_not_le].
Qed.

Lemma ext_gt_fin_false (a b : Q) : ext_gt (Fin a) (Fin b) = false ↔ (a <= b)%Q.
Proof. simpl. rewrite negb_false_iff, Qle_bool_iff. reflexivity. Qed.

Section scan.
Context {A : Type} (key : A → pynum).

Lemma scan_first_max (x : A) (l : list A) :
  Forall (λ r, ∃ q, pynum_value (key r) = Fin q) (x :: l) →
  ∃ i, first_max key (x :: l) i
         (foldl (λ best y, if pynum_gt (key y) (key best) then y else best) x l).
Proof.
  induction l as [|y l IH] using rev_ind; intros Hfin.
  - exists 0%nat. apply Forall_cons in Hfin as [[q Hq] _]. simpl.
    split; [reflexivity|]. exists q. split; [exact Hq|]. split.
    + intros r Hr. apply list_elem_of_singleton in Hr. subst r.
      exists q. split; [exact Hq | apply Qle_refl].
    + intros j r Hj. lia.
  - rewrite app_comm_cons in Hfin. apply Forall_app in Hfin as [Hl Hy].
    apply Forall_singleton in Hy as [qy Hqy].
    destruct (IH Hl) as (i & Hi & qb & Hqb & Hmax & Hfirst).
    rewrite foldl_snoc. set (best := foldl _ x l) in *.
    pose proof (lookup_lt_Some _ _ _ Hi) as Hlen.
    unfold pynum_gt. rewrite Hqy, Hqb.
    destruct (ext_gt (Fin qy) (Fin qb)) eqn:G.
    + apply ext_gt_fin in G. exists (length (x :: l)).
      split; [rewrite app_comm_cons; apply list_lookup_middle; reflexivity|].
      exists qy. split; [exact Hqy|]. split.
      * intros r Hr. rewrite app_comm_cons in Hr.
        apply elem_of_app in Hr as [Hr|Hr].
        -- destruct (Hmax r Hr) as (q & Hq & Hle). exists q. split; [exact Hq|].
           apply Qlt_le_weak. eapply Qle_lt_trans; eassumption.
        -- apply list_elem_of_singleton in Hr. subst r.
           exists qy. split; [exact Hqy | apply Qle_refl].
      * intros j r Hj Hr. rewrite app_comm_cons, lookup_app_l in Hr by exact Hj.
        apply list_elem_of_lookup_2 in Hr.
        destruct (Hmax r Hr) as (q & Hq & Hle). exists q. split; [exact Hq|].
        eapply Qle_lt_trans; eassumption.
    + apply ext_gt_fin_false in G. exists i.
      split; [rewrite app_comm_cons, lookup_app_l by exact Hlen; exact Hi|].
      exists qb. split; [exact Hqb|]. split.
      * intros r Hr. rewrite app_comm_cons in Hr.
        apply elem_of_app in Hr as [Hr|Hr]; [apply Hmax, Hr|].
        apply list_elem_of_singleton in Hr. subst r. exists qy. auto.
      * intros j r Hj Hr. rewrite app_comm_cons, lookup_app_l in Hr by lia.
        exact (Hfirst j r Hj Hr).
Qed.
End scan.

(** ** The ranking *)

Lemma mapM_Done {A B : Type} (f : A → result B) (l : list A) (rs : list B) :
  mapM f l = Done rs → Forall2 (λ x r, f x = Done r) l rs.
Proof.
  revert rs. induction l as [|x l IH]; intros rs; simpl.
  - intros [= <-]. constructor.
  - destruct (f x) as [r| |] eqn:E; simpl; try discriminate.
    destruct (mapM f l) as [rs'| |]; simpl; try discriminate.
    intros [= <-]. constructor; [exact E | apply IH; reflexivity].
Qed.

(** What a run of [main_on] that ends has done. *)
Lemma main_on_Done (pedidos corredores : list (Z * gmap Z Z)) (lb ub : Z)
    (rep : report) :
  main_on pedidos corredores lb ub = Done rep →
  ∃ ys a', all_solutions (problema pedidos corredores lb ub) ∅ = Done (ys, a')
    ∧ ((ys = [] ∧ rep = NenhumaSolucao)
       ∨ (ys ≠ [] ∧ ∃ best rs,
            rep = Melhor best rs
            ∧ Forall2 (λ y r, resultado pedidos corredores lb ub y = Done r) ys rs
            ∧ py_max (λ x : tuple, x.2) rs = Done best)).
Proof.
  unfold main_on.
  destruct (all_solutions (problema pedidos corredores lb ub) ∅) as [[ys a']| |];
    simpl; try discriminate.
  intros H. exists ys, a'. split; [reflexivity|].
  destruct ys as [|y ys]; [left; injection H as <-; split; reflexivity|].
  right. split; [discriminate|].
  destruct (mapM (resultado pedidos corredores lb ub) (y :: ys)) as [rs| |] eqn:Em;
    simpl in H; try discriminate.
  destruct (py_max (λ x : tuple, x.2) rs) as [best| |] eqn:Eb; simpl in H;
    try discriminate.
  injection H as <-. exists best, rs. split; [reflexivity|].
  split; [apply mapM_Done, Em | exact Eb].
Qed.

(** The tuple built from an assignment that [goal_test] accepts. *)
Lemma resultado_viavel (pedidos corredores : list (Z * gmap Z Z)) (lb ub : Z)
    (y : gmap string Z) (t : tuple) :
  viavel pedidos corredores lb ub y = true →
  resultado pedidos corredores lb ub y = Done t →
  t.1.1.1 = y
  ∧ t.1.1.2 = total_selecionado y pedidos
  ∧ t.1.2 = (verifica_corridor_selecionado y corredores).2
  ∧ 1 ≤ t.1.2
  ∧ lb ≤ t.1.1.2 ≤ ub
  ∧ ∃ f q, t.2 = PyFloat f ∧ f = SFdiv 53 1024 (z2sf t.1.1.2) (z2sf t.1.2)
           ∧ pynum_value t.2 = Fin q.
Proof.
  intros Hv. destruct (check_true _ _ _ _ _ Hv) as (total & n & _ & Et & En & Hb & Hn).
  unfold resultado. rewrite wave_total, <- Et, <- En.
  destruct (calcular_valor_objetivo total n) as [obj| |] eqn:E; simpl; try discriminate.
  intros [= <-]. simpl.
  destruct (calcular_valor_objetivo_pos _ _ _ Hn E) as (f & q & Hf & Hdiv & Hq).
  repeat split; try lia. exists f, q. auto.
Qed.

(** Every tuple of a run of [main_on] comes from an assignment that the
    search yielded, hence from one that [goal_test] accepts. *)
Lemma main_on_tuples (pedidos corredores : list (Z * gmap Z Z)) (lb ub : Z)
    (best : tuple) (rs : list tuple) :
  main_on pedidos corredores lb ub = Done (Melhor best rs) →
  py_max (λ x : tuple, x.2) rs = Done best
  ∧ ∃ ys a', all_solutions (problema pedidos corredores lb ub) ∅ = Done (ys, a')
      ∧ (λ t : tuple, t.1.1.1) <$> rs = ys
      ∧ Forall (λ t : tuple,
          viavel pedidos corredores lb ub t.1.1.1 = true
          ∧ resultado pedidos corredores lb ub t.1.1.1 = Done t) rs.
Proof.
  intros H. apply main_on_Done in H as (ys & a' & Hall & [[_ [=]]|(_ & b & rs' & E & HF & Hmax)]).
  injection E as <- <-. split; [exact Hmax|]. exists ys, a'. split; [exact Hall|].
  pose proof (all_solutions_fuel_ok _ _ _ _ Hall) as [_ Hgoal]. simpl in Hgoal.
  clear Hall Hmax. induction HF as [|y t ys rs Hy HF IH]; simpl.
  - split; constructor.
  - apply Forall_cons in Hgoal as [Hg Hgoal]. destruct (IH Hgoal) as [E1 E2].
    apply goal_test_true in Hg as [_ Hv]. rewrite problema_fields in Hv. simpl in Hv.
    destruct (resultado_viavel _ _ _ _ _ _ Hv Hy) as (Ey & _).
    split; [f_equal; [exact Ey | exact E1]|]. constructor; [|exact E2].
    rewrite Ey. split; [exact Hv | exact Hy].
Qed.




(** Quotients that a float holds are exact. *)
Example objetivo_exato_5 :
  calcular_valor_objetivo 5 1 = Done (PyFloat (S754_finite false 5629499534213120 (-50)))
  ∧ calcular_valor_objetivo 10 4 = Done (PyFloat (S754_finite false 5629499534213120 (-51)))
  ∧ calcular_valor_objetivo 7 0 = Done (PyInt 0).
Proof. repeat split; vm_compute; reflexivity. Qed.

(** C8. The best tuple is at some position [i] of the result list,
    which is in the order of the enumeration; no tuple has a greater
    objective, and every tuple before position [i] has a smaller one. *)
Theorem melhor_first_max (pedidos corredores : list (Z * gmap Z Z)) (lb ub : Z)
    (best : tuple) (rs : list tuple) :
  main_on pedidos corredores lb ub = Done (Melhor best rs) →
  (∃ ys a', all_solutions (problema pedidos corredores lb ub) ∅ = Done (ys, a')
     ∧ (λ t : tuple, t.1.1.1) <$> rs = ys)
  ∧ ∃ i qb,
      rs !! i = Some best
      ∧ pynum_value best.2 = Fin qb
      ∧ (∀ r, r ∈ rs → ∃ q, pynum_value r.2 = Fin q ∧ (q <= qb)%Q
                        ∧ pynum_gt r.2 best.2 = false)
      ∧ (∀ j r, (j < i)%nat → rs !! j = Some r →
           ∃ q, pynum_value r.2 = Fin q ∧ (q < qb)%Q
                ∧ pynum_gt best.2 r.2 = true).
Proof.
  intros H. apply main_on_tuples in H as (Hmax & ys & a' & Hall & Hys & HF).
  split; [exists ys, a'; auto|].
  assert (Hfin : Forall (λ r : tuple, ∃ q, pynum_value r.2 = Fin q) rs).
  { eapply Forall_impl; [exact HF|]. intros t [Hv Hr]. simpl.
    destruct (resultado_viavel _ _ _ _ _ _ Hv Hr) as (_ & _ & _ & _ & _ & f & q & _ & _ & Hq).
    exists q. exact Hq. }
  destruct rs as [|x l]; [discriminate|]. simpl in Hmax. injection Hmax as <-.
  destruct (scan_first_max (λ t : tuple, t.2) x l Hfin) as (i & Hi & qb & Hqb & Hle & Hlt).
  cbv beta in Hi, Hqb, Hle, Hlt.
  set (b := foldl (λ best y : tuple, if pynum_gt y.2 best.2 then y else best) x l) in *.
  exists i, qb. split; [exact Hi|]. split; [exact Hqb|]. split.
  - intros r Hr. destruct (Hle r Hr) as (q & Hq & Hqle). exists q.
    split; [exact Hq|]. split; [exact Hqle|].
    unfold pynum_gt. rewrite Hq, Hqb. apply ext_gt_fin_false, Hqle.
  - intros j r Hj Hr. destruct (Hlt j r Hj Hr) as (q & Hq & Hqlt). exists q.
    split; [exact Hq|]. split; [exact Hqlt|].
    unfold pynum_gt. rewrite Hq, Hqb. apply ext_gt_fin, Hqlt.
Qed.

(** ** No feasible wave *)

Lemma total_le_max (a : gmap string Z) (pedidos : list (Z * gmap Z Z)) :
  total_selecionado a pedidos ≤ max_total pedidos.
Proof.
  unfold total_selecionado, max_total.
  induction pedidos as [|e l IH]; simpl; [lia|].
  destruct (pedido_sel a e.1); simpl; rewrite !py_sum_cons; lia.
Qed.

Lemma max_total_attained (pedidos : list (Z * gmap Z Z)) :
  NoDup (keys pedidos) → ∃ a, total_selecionado a pedidos = max_total pedidos.
Proof.
  intros Hnd.
  set (l := (λ e : Z * gmap Z Z,
              (var_o e.1, if 0 <? sum_values e.2 then 1 else 0)) <$> pedidos).
  exists (list_to_map l).
  assert (Hsel : ∀ e, e ∈ pedidos →
            pedido_sel (list_to_map l) e.1 = (0 <? sum_values e.2)).
  { intros e He. unfold pedido_sel, get0.
    rewrite (elem_of_list_to_map_1 l (var_o e.1) (if 0 <? sum_values e.2 then 1 else 0)).
    - simpl. destruct (0 <? sum_values e.2); reflexivity.
    - subst l. rewrite <- list_fmap_compose.
      apply (NoDup_fmap_2_strong (λ e : Z * gmap Z Z, var_o e.1)); [|].
      + intros x y Hx Hy E. simpl in E. apply var_o_inj in E.
        unfold keys in Hnd. clear -Hnd Hx Hy E.
        induction pedidos as [|z p IH]; [inversion Hx|].
        simpl in Hnd. apply NoDup_cons in Hnd as [Hz Hp].
        apply elem_of_cons in Hx as [->|Hx], Hy as [->|Hy]; auto.
        * exfalso. apply Hz. rewrite E. apply list_elem_of_fmap. eauto.
        * exfalso. apply Hz. rewrite <- E. apply list_elem_of_fmap. eauto.
      + clear -Hnd. unfold keys in Hnd. apply NoDup_fmap_1 in Hnd. exact Hnd.
    - subst l. apply list_elem_of_fmap. exists e. auto. }
  unfold total_selecionado, max_total. clear Hnd. clearbody l.
  induction pedidos as [|e p IH]; simpl; [reflexivity|].
  rewrite (Hsel e) by left. rewrite py_sum_cons.
  destruct (Z.ltb_spec 0 (sum_values e.2)); simpl; rewrite ?py_sum_cons, IH; try lia.
  all: intros e' He'; apply Hsel; right; exact He'.
Qed.

(** C6. When the lower bound exceeds the greatest total that a
    selection of orders can reach, the search ends without a yield, and
    [main_on] ends with the answer that there is no feasible wave: no
    tuple is built and no division is made. *)
Theorem sem_solucao (pedidos corredores : list (Z * gmap Z Z)) (lb ub : Z) :
  NoDup (keys pedidos) → NoDup (keys corredores) →
  max_total pedidos < lb →
  all_solutions (problema pedidos corredores lb ub) ∅ = Done ([], ∅)
  ∧ main_on pedidos corredores lb ub = Done NenhumaSolucao.
Proof.
  intros Hp Hc Hlb.
  assert (E : brute_force pedidos corredores lb ub = []).
  { destruct (brute_force pedidos corredores lb ub) as [|y ys] eqn:E; [reflexivity|].
    assert (Hy : y ∈ brute_force pedidos corredores lb ub) by (rewrite E; left).
    apply brute_force_elem in Hy as [_ Hv].
    destruct (check_true _ _ _ _ _ Hv) as (total & n & _ & -> & _ & Hb & _).
    pose proof (total_le_max y pedidos). lia. }
  pose proof (problema_solutions pedidos corredores lb ub Hp Hc) as Hall.
  rewrite E in Hall. split; [exact Hall|].
  unfold main_on. rewrite Hall. reflexivity.
Qed.

(** ** The data of the program *)

Lemma pedidos_NoDup : NoDup (keys pedidos).
Proof. apply (bool_decide_unpack (NoDup (keys pedidos))). vm_compute. exact I. Qed.

Lemma corredores_NoDup : NoDup (keys corredores).
Proof. apply (bool_decide_unpack (NoDup (keys corredores))). vm_compute. exact I. Qed.

Lemma fin_le_true (x : ext) (q : Q) :
  fin_le x q = true → ∃ a, x = Fin a ∧ (a <= q)%Q.
Proof.
  destruct x as [| |a|]; simpl; try discriminate.
  intros H. exists a. split; [reflexivity | apply Qle_bool_iff, H].
Qed.

Lemma fin_eq_true (x : ext) (q : Q) :
  fin_eq x q = true → ∃ a, x = Fin a ∧ (a == q)%Q.
Proof.
  destruct x as [| |a|]; simpl; try discriminate.
  intros H. exists a. split; [reflexivity | apply Qeq_bool_iff, H].
Qed.

Lemma main_check :
  match main with
  | Done (Melhor best rs) =>
      fin_eq (pynum_value best.2) 5
      && Nat.eqb (length rs) 309
      && forallb (λ t : tuple, (5 <=? t.1.1.2) && (t.1.1.2 <=? 12)
                               && fin_le (pynum_value t.2) 5) rs
  | _ => false
  end = true.
Proof. vm_compute. reflexivity. Qed.

(** C7. On the data of the program with the band [5, 12], [main]
    ends with a best tuple; the result list holds the 309 feasible
    assignments of the brute-force enumeration, each with a total within
    [5, 12] and an objective of at most 5; and the objective of the best
    tuple is exactly 5. *)
Theorem main_dataset :
  ∃ best rs,
    main = Done (Melhor best rs)
    ∧ (λ t : tuple, t.1.1.1) <$> rs = brute_force pedidos corredores LB UB
    ∧ length rs = 309%nat
    ∧ best ∈ rs
    ∧ (∃ qb, pynum_value best.2 = Fin qb ∧ (qb == 5)%Q)
    ∧ ∀ t, t ∈ rs →
        5 ≤ t.1.1.2 ≤ 12 ∧ ∃ q, pynum_value t.2 = Fin q ∧ (q <= 5)%Q.
Proof.
  pose proof main_check as H.
  remember main as m eqn:E. destruct m as [[|best rs]| |]; try discriminate H.
  rewrite !andb_true_iff in H. destruct H as [[Hbest Hlen] Hall].
  exists best, rs. split; [reflexivity|].
  symmetry in E. unfold main in E.
  destruct (melhor_first_max _ _ _ _ _ _ E) as [(ys & a' & Hys & Hrs) (i & _ & Hi & _)].
  split.
  { pose proof (problema_solutions _ _ LB UB pedidos_NoDup corredores_NoDup) as Hbf.
    rewrite Hrs. congruence. }
  split; [apply Nat.eqb_eq, Hlen|].
  split; [apply list_elem_of_lookup_2 with i; exact Hi|].
  split; [apply fin_eq_true, Hbest|].
  intros t Ht. rewrite forallb_forall in Hall.
  specialize (Hall t (proj1 (list_elem_of_In _ _) Ht)).
  rewrite !andb_true_iff, !Z.leb_le in Hall. destruct Hall as [[H5 H12] Hq].
  split; [lia | apply fin_le_true, Hq].
Qed.

(** ** The working dictionary and the yielded copies *)

Lemma Forall2_impl_in {A B : Type} (P Q : A → B → Prop) (l : list A) (k : list B) :
  Forall2 P l k → (∀ x y, x ∈ l → P x y → Q x y) → Forall2 Q l k.
Proof.
  induction 1 as [|x y l k Hxy HF IH]; intros Himp; constructor.
  - apply Himp; [left | exact Hxy].
  - apply IH. intros x' y' Hin. apply Himp. right. exact Hin.
Qed.

Lemma Forall2_elem_l {A B : Type} (P : A → B → Prop) (l : list A) (k : list B) (x : A) :
  Forall2 P l k → x ∈ l → ∃ y, P x y.
Proof.
  induction 1 as [|x' y l k Hxy HF IH]; intros Hin; [inversion Hin|].
  apply elem_of_cons in Hin as [->|Hin]; [eauto | apply IH, Hin].
Qed.

Section heap.
Variable csp : PedidosCSP.
Variable l : nat.

Lemma heap_rel_fresh (h : gmap nat (gmap string Z)) (r : run_state)
    (rh : heap_state) (l' : nat) :
  is_Some (h !! l) → heap_rel l h r rh → l' ∈ rh.1 → l' ≠ l.
Proof.
  intros [a Ha] (_ & _ & _ & Hnew & _) Hin ->.
  rewrite (Hnew l Hin) in Ha. discriminate.
Qed.

Lemma try_value_sim (rec : gmap string Z → result run_state)
    (rech : gmap nat (gmap string Z) → result heap_state)
    (Hsim : ∀ h a, h !! l = Some a → res_rel l h (rec a) (rech h))
    (var : string) (h0 : gmap nat (gmap string Z)) (Hl : is_Some (h0 !! l))
    (x : result run_state) (xh : result heap_state) (value : Z) :
  res_rel l h0 x xh →
  res_rel l h0 (try_value rec csp var x value) (try_value_heap rech csp l var xh value).
Proof.
  destruct x as [[ys a1]| |]; simpl; [|intros ->; reflexivity..].
  intros ([ls h1] & -> & Hrel). simpl.
  pose proof Hrel as (Ha1 & Hys & Hnd & Hnew & Hkeep). simpl in *.
  rewrite (lookup_total_correct _ _ _ Ha1).
  destruct (nconflicts csp var value a1) as [n| |]; simpl; try reflexivity.
  destruct (n =? 0); simpl; [|exists (ls, h1); split; [reflexivity | exact Hrel]].
  set (a2 := assign var value a1).
  pose proof (Hsim (<[l := a2]> h1) a2 (lookup_insert_eq _ _ _)) as Hrec.
  destruct (rec a2) as [[ys2 a3]| |]; simpl in *; [|rewrite Hrec; reflexivity..].
  destruct Hrec as ([ls2 h3] & -> & Ha3 & Hys2 & Hnd2 & Hnew2 & Hkeep2). simpl in *.
  rewrite (lookup_total_correct _ _ _ Ha3).
  eexists. split; [reflexivity|]. unfold heap_rel. simpl.
  assert (Hls : ∀ l', l' ∈ ls → l' ≠ l).
  { intros l' Hin ->. destruct Hl as [a Ha]. rewrite (Hnew l Hin) in Ha. discriminate. }
  assert (Hls2 : ∀ l', l' ∈ ls2 → l' ≠ l ∧ h1 !! l' = None).
  { intros l' Hin. specialize (Hnew2 l' Hin).
    destruct (decide (l' = l)) as [->|Hne].
    - rewrite lookup_insert_eq in Hnew2. discriminate.
    - rewrite lookup_insert_ne in Hnew2 by congruence. auto. }
  assert (Hold : ∀ l' y, l' ≠ l → h1 !! l' = Some y →
            <[l := unassign var a3]> h3 !! l' = Some y).
  { intros l' y Hne Hy. rewrite lookup_insert_ne by congruence.
    rewrite Hkeep2; [|exact Hne|]; rewrite lookup_insert_ne by congruence;
      [exact Hy | eauto]. }
  split; [apply lookup_insert_eq|]. split; [|split; [|split]].
  - apply Forall2_app.
    + apply (Forall2_impl_in _ _ _ _ Hys). intros l' y Hin Hy.
      apply Hold; [apply Hls, Hin | exact Hy].
    + apply (Forall2_impl_in _ _ _ _ Hys2). intros l' y Hin Hy.
      rewrite lookup_insert_ne; [exact Hy|].
      intros <-. exact (proj1 (Hls2 _ Hin) eq_refl).
  - apply NoDup_app. split; [exact Hnd|]. split; [|exact Hnd2].
    intros l' Hin Hin2. destruct (Hls2 l' Hin2) as [_ Hnone].
    destruct (Forall2_elem_l _ _ _ _ Hys Hin) as [y Hy]. congruence.
  - intros l' Hin. apply elem_of_app in Hin as [Hin|Hin]; [apply Hnew, Hin|].
    destruct (Hls2 l' Hin) as [Hne Hnone].
    destruct (h0 !! l') as [y|] eqn:E; [|reflexivity].
    rewrite <- (Hkeep l' Hne) in E by eauto. congruence.
  - intros k Hne Hk. rewrite lookup_insert_ne by congruence.
    rewrite Hkeep2; [|exact Hne|]; rewrite lookup_insert_ne by congruence.
    + apply Hkeep; assumption.
    + rewrite Hkeep; assumption.
Qed.

Lemma foldl_try_value_sim (rec : gmap string Z → result run_state)
    (rech : gmap nat (gmap string Z) → result heap_state)
    (Hsim : ∀ h a, h !! l = Some a → res_rel l h (rec a) (rech h))
    (var : string) (h0 : gmap nat (gmap string Z)) (Hl : is_Some (h0 !! l))
    (vals : list Z) :
  ∀ x xh, res_rel l h0 x xh →
    res_rel l h0 (foldl (try_value rec csp var) x vals)
               (foldl (try_value_heap rech csp l var) xh vals).
Proof.
  induction vals as [|value vals IH]; intros x xh Hx; simpl; [exact Hx|].
  apply IH, try_value_sim; assumption.
Qed.

(** The run on the heap does what the run on values does. *)
Lemma all_solutions_heap_sim (fuel : nat) :
  ∀ h a, h !! l = Some a →
    res_rel l h (all_solutions_fuel fuel csp a) (all_solutions_heap fuel csp l h).
Proof.
  induction fuel as [|fuel IH]; intros h a Ha; simpl; [reflexivity|].
  rewrite (lookup_total_correct _ _ _ Ha).
  destruct (Nat.eqb (size a) (length (variables csp))).
  - destruct (goal_test csp a); simpl.
    + eexists. split; [reflexivity|]. unfold heap_rel. simpl.
      pose proof (is_fresh (dom h)) as Hf. rewrite not_elem_of_dom in Hf.
      assert (Hne : fresh (dom h) ≠ l) by congruence.
      split; [rewrite lookup_insert_ne by exact Hne; exact Ha|].
      split; [repeat constructor; apply lookup_insert_eq|].
      split; [apply NoDup_singleton|]. split.
      * intros l' Hin. apply list_elem_of_singleton in Hin. subst l'. exact Hf.
      * intros k _ [y Hy]. apply lookup_insert_ne. congruence.
    + eexists. split; [reflexivity|]. unfold heap_rel. simpl.
      split; [exact Ha|]. split; [constructor|]. split; [constructor|].
      split; [intros l' Hin; inversion Hin | reflexivity].
  - destruct (first _) as [var|]; [|reflexivity].
    destruct (choices csp var) as [vals| |]; simpl; try reflexivity.
    apply foldl_try_value_sim; [exact IH | eauto |].
    eexists. split; [reflexivity|]. unfold heap_rel. simpl.
    split; [exact Ha|]. split; [constructor|]. split; [constructor|].
    split; [intros l' Hin; inversion Hin | reflexivity].
Qed.

Lemma all_solutions_heap_Done (fuel : nat) (h : gmap nat (gmap string Z))
    (a : gmap string Z) (rh : heap_state) :
  h !! l = Some a →
  all_solutions_heap fuel csp l h = Done rh →
  ∃ ys, all_solutions_fuel fuel csp a = Done (ys, a)
    ∧ Forall (λ y, goal_test csp y = true) ys
    ∧ heap_rel l h (ys, a) rh.
Proof.
  intros Ha Hrun. pose proof (all_solutions_heap_sim fuel h a Ha) as Hsim.
  destruct (all_solutions_fuel fuel csp a) as [[ys a']| |] eqn:E; simpl in Hsim;
    [|congruence..].
  destruct Hsim as (rh' & Hrh & Hrel). rewrite Hrun in Hrh. injection Hrh as <-.
  destruct (all_solutions_fuel_ok _ _ _ _ E) as [Ea HF]. simpl in Ea, HF. subst a'.
  exists ys. auto.
Qed.
End heap.

(** C10. A run of [all_solutions] to exhaustion, on a dictionary
    passed in or on the one it creates, leaves the working dictionary
    with its initial contents and every other object untouched; the
    dictionaries it yielded are new objects, distinct from each other and
    from the working dictionary, and each still holds the complete
    assignment that [goal_test] accepted when it was yielded. *)
Theorem all_solutions_restores (csp : PedidosCSP) (assignment : option nat)
    (h h' : gmap nat (gmap string Z)) (l : nat) (ls : list nat) :
  (∀ l0, assignment = Some l0 → is_Some (h !! l0)) →
  all_solutions_call csp assignment h = Done (l, (ls, h')) →
  let inicial : gmap string Z :=
    match assignment with Some l0 => h !!! l0 | None => ∅ end in
  h' !! l = Some inicial
  ∧ (∀ k, is_Some (h !! k) → h' !! k = h !! k)
  ∧ NoDup ls
  ∧ (∀ l', l' ∈ ls → l' ≠ l ∧ h !! l' = None)
  ∧ ∃ ys, all_solutions csp inicial = Done (ys, inicial)
      ∧ Forall2 (λ l' y, h' !! l' = Some y ∧ goal_test csp y = true) ls ys.
Proof.
  intros Hl Hrun inicial. unfold all_solutions_call in Hrun.
  destruct assignment as [l0|].
  - destruct (Hl l0 eq_refl) as [a Ha].
    destruct (all_solutions_heap _ csp l0 h) as [rh| |] eqn:E; simpl in Hrun;
      try discriminate.
    injection Hrun as <- ->.
    destruct (all_solutions_heap_Done _ _ _ _ _ _ Ha E)
      as (ys & Hys & Hgoal & Hl' & HF & Hnd & Hnew & Hkeep).
    simpl in *. subst inicial. rewrite (lookup_total_correct _ _ _ Ha).
    split; [exact Hl'|]. split; [|split; [exact Hnd|split]].
    + intros k Hk. destruct (decide (k = l0)) as [->|Hne]; [congruence|].
      apply Hkeep; assumption.
    + intros l' Hin. split; [|apply Hnew, Hin].
      intros ->. rewrite (Hnew _ Hin) in Ha. discriminate.
    + exists ys. split; [exact Hys|].
      clear -HF Hgoal. induction HF as [|l' y ls ys Hy HF IH]; constructor.
      * apply Forall_cons in Hgoal as [Hg _]. auto.
      * apply IH. apply Forall_cons in Hgoal as [_ Hg]. exact Hg.
  - set (l0 := fresh (dom h)) in *.
    assert (Hfresh : h !! l0 = None) by (apply not_elem_of_dom, is_fresh).
    destruct (all_solutions_heap _ csp l0 (<[l0 := ∅]> h)) as [rh| |] eqn:E;
      simpl in Hrun; try discriminate.
    injection Hrun as <- ->.
    destruct (all_solutions_heap_Done _ _ _ _ _ _ (lookup_insert_eq _ _ _) E)
      as (ys & Hys & Hgoal & Hl' & HF & Hnd & Hnew & Hkeep).
    simpl in *. subst inicial.
    split; [exact Hl'|]. split; [|split; [exact Hnd|split]].
    + intros k Hk. assert (Hne : k ≠ l0) by (intros ->; rewrite Hfresh in Hk; destruct Hk; discriminate).
      rewrite Hkeep; [|exact Hne|]; rewrite lookup_insert_ne by congruence; auto.
    + intros l' Hin. specialize (Hnew l' Hin).
      destruct (decide (l' = l0)) as [->|Hne].
      * rewrite lookup_insert_eq in Hnew. discriminate.
      * rewrite lookup_insert_ne in Hnew by congruence. auto.
    + exists ys. split; [exact Hys|].
      clear -HF Hgoal. induction HF as [|l' y ls ys Hy HF IH]; constructor.
      * apply Forall_cons in Hgoal as [Hg _]. auto.
      * apply IH. apply Forall_cons in Hgoal as [_ Hg]. exact Hg.
Qed.

(** On problem data, the run on the heap ends. *)
Lemma all_solutions_call_problema (pedidos corredores : list (Z * gmap Z Z)) (lb ub : Z)
    (h : gmap nat (gmap string Z)) :
  NoDup (keys pedidos) → NoDup (keys corredores) →
  ∃ ls h', all_solutions_call (problema pedidos corredores lb ub) None h
           = Done (fresh (dom h), (ls, h')).
Proof.
  intros Hp Hc. unfold all_solutions_call.
  pose proof (all_solutions_heap_sim (problema pedidos corredores lb ub) (fresh (dom h))
                (S (length (variables (problema pedidos corredores lb ub))))
                (<[fresh (dom h) := ∅]> h) ∅ (lookup_insert_eq _ _ _)) as Hsim.
  fold (all_solutions (problema pedidos corredores lb ub) ∅) in Hsim.
  rewrite (problema_solutions _ _ lb ub Hp Hc) in Hsim.
  destruct Hsim as ([ls h'] & -> & _). simpl. eauto.
Qed.

(** ** The theorems on concrete problems *)

Ltac by_compute := vm_compute; first [reflexivity | exact I].
Ltac nodup_keys :=
  match goal with
  | |- NoDup ?l => apply (bool_decide_unpack (NoDup l)); by_compute
  end.

Lemma all_solutions_sound_witness :
  ∃ ys, all_solutions (problema pedidos corredores LB UB) ∅ = Done (ys, ∅)
    ∧ ∀ y, y ∈ ys →
        dom y = list_to_set (nomes pedidos corredores)
        ∧ goal_test (problema pedidos corredores LB UB) y = true
        ∧ ∃ total n,
            check_global_constraints y pedidos corredores LB UB = (true, total, n)
            ∧ LB ≤ total ≤ UB ∧ 0 < n.
Proof. apply (all_solutions_sound pedidos corredores LB UB); nodup_keys. Defined.

Lemma all_solutions_complete_witness :
  all_solutions (problema dois_pedidos dois_corredores 2 3) ∅
  = Done (brute_force dois_pedidos dois_corredores 2 3, ∅)
  ∧ length (brute_force dois_pedidos dois_corredores 2 3) = 4%nat.
Proof.
  split; [|by_compute].
  apply (all_solutions_complete dois_pedidos dois_corredores 2 3); nodup_keys.
Defined.


Lemma sem_solucao_witness :
  all_solutions (problema um_pedido tres_corredores 5 12) ∅ = Done ([], ∅)
  ∧ main_on um_pedido tres_corredores 5 12 = Done NenhumaSolucao.
Proof.
  apply (sem_solucao um_pedido tres_corredores 5 12); [nodup_keys | nodup_keys | by_compute].
Defined.

Lemma melhor_first_max_witness :
  ∃ i qb,
    exemplo_resultados.2 !! i = Some exemplo_resultados.1
    ∧ pynum_value exemplo_resultados.1.2 = Fin qb
    ∧ (∀ r, r ∈ exemplo_resultados.2 →
         ∃ q, pynum_value r.2 = Fin q ∧ (q <= qb)%Q
              ∧ pynum_gt r.2 exemplo_resultados.1.2 = false)
    ∧ (∀ j r, (j < i)%nat → exemplo_resultados.2 !! j = Some r →
         ∃ q, pynum_value r.2 = Fin q ∧ (q < qb)%Q
              ∧ pynum_gt exemplo_resultados.1.2 r.2 = true).
Proof.
  apply (melhor_first_max um_pedido tres_corredores 1 1
           exemplo_resultados.1 exemplo_resultados.2).
  by_compute.
Defined.

Lemma all_solutions_restores_witness :
  exemplo_heap.2.2 !! exemplo_heap.1 = Some ∅
  ∧ NoDup exemplo_heap.2.1
  ∧ length exemplo_heap.2.1 = 7%nat.
Proof.
  destruct (all_solutions_restores (problema um_pedido tres_corredores 1 1) (Some 0%nat)
              {[ 0%nat := ∅ ]} exemplo_heap.2.2 exemplo_heap.1 exemplo_heap.2.1)
    as (Hw & _ & Hnd & _).
  - intros l0 [= <-]. exists ∅. by_compute.
  - by_compute.
  - split; [exact Hw|]. split; [exact Hnd | by_compute].
Defined.

(** * Further properties of the code *)

(** ** Variables, domains and neighbours *)

Lemma dominios_lookup (pedidos corredores : list (Z * gmap Z Z)) (v : string) :
  (criar_variaveis_e_dominios pedidos corredores).2 !! v
  = if decide (v ∈ nomes pedidos corredores) then Some [0; 1] else None.
Proof.
  unfold criar_variaveis_e_dominios, nomes. cbv zeta.
  rewrite (proj2 (foldl_add_var var_c (keys corredores) _) v).
  rewrite (proj2 (foldl_add_var var_o (keys pedidos) _) v). cbn [snd].
  rewrite lookup_empty.
  destruct (decide (v ∈ var_c <$> keys corredores)) as [Hc|Hc];
    destruct (decide (v ∈ var_o <$> keys pedidos)) as [Ho|Ho];
    destruct (decide (v ∈ (var_o <$> keys pedidos) ++ (var_c <$> keys corredores)))
      as [H|H]; try reflexivity; exfalso; set_solver.
Qed.

(** X1. [criar_variaveis_e_dominios] returns the names of the orders
    followed by the names of the corridors, each in the order of its
    dictionary: one variable per order and per corridor; the domain
    dictionary has exactly these names as keys, each with the domain
    [0, 1]. *)
Theorem criar_variaveis_e_dominios_spec (pedidos corredores : list (Z * gmap Z Z)) :
  let r := criar_variaveis_e_dominios pedidos corredores in
  r.1 = (var_o <$> keys pedidos) ++ (var_c <$> keys corredores)
  ∧ length r.1 = (length pedidos + length corredores)%nat
  ∧ dom r.2 = list_to_set r.1
  ∧ ∀ v d, r.2 !! v = Some d → d = [0; 1].
Proof.
  intros r. subst r.
  rewrite (proj1 (criar_variaveis_spec pedidos corredores)).
  split; [reflexivity|]. split; [|split].
  - unfold nomes, keys. rewrite length_app, !length_fmap. reflexivity.
  - apply set_eq. intros v. rewrite elem_of_dom, dominios_lookup, elem_of_list_to_set.
    destruct (decide _) as [H|H]; split; intros H'; try assumption; eauto;
      try contradiction.
    destruct H' as [? [=]].
  - intros v d. rewrite dominios_lookup. destruct (decide _); congruence.
Qed.

(** X2. The variable names are pairwise distinct exactly when neither
    dictionary repeats a key: distinct orders get distinct names, distinct
    corridors too, and no order shares its name with a corridor. *)
Theorem nomes_distintos (pedidos corredores : list (Z * gmap Z Z)) :
  NoDup (criar_variaveis_e_dominios pedidos corredores).1
  ↔ NoDup (keys pedidos) ∧ NoDup (keys corredores).
Proof.
  rewrite (proj1 (criar_variaveis_spec pedidos corredores)). split.
  - unfold nomes. intros H. apply NoDup_app in H as (Ho & _ & Hc).
    split; eapply NoDup_fmap_1; eassumption.
  - intros [Hp Hc]. apply NoDup_nomes; assumption.
Qed.

Lemma foldl_neighbors_lookup (all l : list string) (v : string)
    (d : gmap string (list string)) :
  foldl (λ (d : gmap string (list string)) var,
           <[var := filter (λ v, v ≠ var) all]> d) d l !! v
  = if decide (v ∈ l) then Some (filter (λ u, u ≠ v) all) else d !! v.
Proof.
  revert d. induction l as [|x l IH]; intros d; simpl.
  - destruct (decide (v ∈ [])) as [H|H]; [inversion H | reflexivity].
  - rewrite IH. destruct (decide (v ∈ l)) as [Hl|Hl].
    + rewrite decide_True by (right; exact Hl). reflexivity.
    + destruct (decide (v = x)) as [->|Hne].
      * rewrite lookup_insert_eq, decide_True by left. reflexivity.
      * rewrite lookup_insert_ne by congruence.
        rewrite decide_False; [reflexivity|].
        intros H. apply elem_of_cons in H as [?|?]; contradiction.
Qed.

(** X3. [criar_neighbors] has exactly the variables as keys; the
    neighbours of a variable are all the other variables, in order, never
    the variable itself, and the relation is symmetric. *)
Theorem criar_neighbors_outros (variaveis : list string) :
  dom (criar_neighbors variaveis) = list_to_set variaveis
  ∧ (∀ v, v ∈ variaveis →
       criar_neighbors variaveis !! v = Some (filter (λ u, u ≠ v) variaveis))
  ∧ (∀ v ns, criar_neighbors variaveis !! v = Some ns →
       (v ∉ ns) ∧ (∀ u, u ∈ ns ↔ u ∈ variaveis ∧ u ≠ v))
  ∧ (∀ u v nu nv,
       criar_neighbors variaveis !! u = Some nu →
       criar_neighbors variaveis !! v = Some nv →
       (u ∈ nv ↔ v ∈ nu)).
Proof.
  assert (Hlook : ∀ v, criar_neighbors variaveis !! v
            = if decide (v ∈ variaveis)
              then Some (filter (λ u, u ≠ v) variaveis) else None).
  { intros v. unfold criar_neighbors. rewrite foldl_neighbors_lookup, lookup_empty.
    reflexivity. }
  assert (Hns : ∀ v ns, criar_neighbors variaveis !! v = Some ns →
            v ∈ variaveis ∧ ∀ u, u ∈ ns ↔ u ∈ variaveis ∧ u ≠ v).
  { intros v ns. rewrite Hlook. destruct (decide (v ∈ variaveis)) as [Hv|Hv];
      [|discriminate].
    intros [= <-]. split; [exact Hv|]. intros u. rewrite list_elem_of_filter. tauto. }
  split; [|split; [|split]].
  - apply set_eq. intros v. rewrite elem_of_dom, Hlook, elem_of_list_to_set.
    destruct (decide _) as [H|H]; split; intros H'; try assumption; eauto;
      try contradiction.
    destruct H' as [? [=]].
  - intros v Hv. rewrite Hlook, decide_True by exact Hv. reflexivity.
  - intros v ns H. destruct (Hns v ns H) as [_ Hu]. split; [|exact Hu].
    rewrite Hu. tauto.
  - intros u v nu nv Hu Hv.
    destruct (Hns u nu Hu) as [Hin_u Hnu]. destruct (Hns v nv Hv) as [Hin_v Hnv].
    rewrite Hnu, Hnv. split; intros [_ Hne]; split; auto.
Qed.

(** ** The feasibility checks *)

Lemma total_selecionado_ext (a a' : gmap string Z) (pedidos : list (Z * gmap Z Z)) :
  (∀ e, e ∈ pedidos → pedido_sel a' e.1 = pedido_sel a e.1) →
  total_selecionado a' pedidos = total_selecionado a pedidos.
Proof.
  intros H. unfold total_selecionado. do 2 f_equal.
  apply List.filter_ext_in. intros e He. apply H, list_elem_of_In, He.
Qed.

Lemma demanda_ext (a a' : gmap string Z) (pedidos : list (Z * gmap Z Z)) (item : Z) :
  (∀ e, e ∈ pedidos → pedido_sel a' e.1 = pedido_sel a e.1) →
  demanda a' pedidos item = demanda a pedidos item.
Proof.
  intros H. unfold demanda. do 2 f_equal.
  apply List.filter_ext_in. intros e He. apply H, list_elem_of_In, He.
Qed.

Lemma oferta_ext (a a' : gmap string Z) (corredores : list (Z * gmap Z Z)) (item : Z) :
  (∀ e, e ∈ corredores → corredor_sel a' e.1 = corredor_sel a e.1) →
  oferta a' corredores item = oferta a corredores item.
Proof.
  intros H. unfold oferta. do 2 f_equal.
  apply List.filter_ext_in. intros e He. apply H, list_elem_of_In, He.
Qed.

Lemma wave_ext (a a' : gmap string Z) (pedidos : list (Z * gmap Z Z)) (lb ub : Z) :
  (∀ e, e ∈ pedidos → pedido_sel a' e.1 = pedido_sel a e.1) →
  verifica_tamanho_wave a' pedidos lb ub = verifica_tamanho_wave a pedidos lb ub.
Proof.
  intros H.
  pose proof (wave_total a pedidos lb ub) as T. pose proof (wave_total a' pedidos lb ub) as T'.
  rewrite (total_selecionado_ext a a' pedidos H) in T'.
  unfold verifica_tamanho_wave in *. cbn [snd] in T, T'. rewrite T, T'. reflexivity.
Qed.

Lemma capacidade_ext (a a' : gmap string Z) (pedidos corredores : list (Z * gmap Z Z)) :
  (∀ e, e ∈ pedidos → pedido_sel a' e.1 = pedido_sel a e.1) →
  (∀ e, e ∈ corredores → corredor_sel a' e.1 = corredor_sel a e.1) →
  verifica_capacidade a' pedidos corredores = verifica_capacidade a pedidos corredores.
Proof.
  intros Hp Hc. apply eq_true_iff_eq. rewrite !capacidade_true.
  split; intros H item Hin; specialize (H item Hin);
    rewrite (demanda_ext a a' pedidos item Hp), (oferta_ext a a' corredores item Hc) in *;
    exact H.
Qed.

Lemma corridor_ext (a a' : gmap string Z) (corredores : list (Z * gmap Z Z)) :
  (∀ e, e ∈ corredores → get0 a' (var_c e.1) = get0 a (var_c e.1)) →
  verifica_corridor_selecionado a' corredores = verifica_corridor_selecionado a corredores.
Proof.
  intros H. unfold verifica_corridor_selecionado.
  replace (map (λ e : Z * gmap Z Z, get0 a' (var_c e.1)) corredores)
    with (map (λ e : Z * gmap Z Z, get0 a (var_c e.1)) corredores); [reflexivity|].
  apply map_ext_in. intros e He. symmetry. apply H, list_elem_of_In, He.
Qed.

Lemma get0_insert_ne (a : gmap string Z) (k k' : string) (v : Z) :
  k ≠ k' → get0 (<[k := v]> a) k' = get0 a k'.
Proof. intros H. unfold get0. rewrite lookup_insert_ne by exact H. reflexivity. Qed.

(** X4. Each check reads only its own variables.  Binding a name
    that is not the name of an order (a corridor variable, say) leaves
    the band check as it was; binding a name that is not the name of a
    corridor leaves the activity check as it was; and binding a name that
    is neither leaves the three checks and the combinator as they were. *)
Theorem checks_frame (a : gmap string Z) (pedidos corredores : list (Z * gmap Z Z))
    (lb ub : Z) (k : string) (v : Z) :
  (k ∉ var_o <$> keys pedidos →
     verifica_tamanho_wave (<[k := v]> a) pedidos lb ub
     = verifica_tamanho_wave a pedidos lb ub)
  ∧ (k ∉ var_c <$> keys corredores →
     verifica_corridor_selecionado (<[k := v]> a) corredores
     = verifica_corridor_selecionado a corredores)
  ∧ (k ∉ nomes pedidos corredores →
     verifica_capacidade (<[k := v]> a) pedidos corredores
     = verifica_capacidade a pedidos corredores
     ∧ check_global_constraints (<[k := v]> a) pedidos corredores lb ub
       = check_global_constraints a pedidos corredores lb ub)
  ∧ (∀ c, verifica_tamanho_wave (<[var_c c := v]> a) pedidos lb ub
          = verifica_tamanho_wave a pedidos lb ub)
  ∧ (∀ o, verifica_corridor_selecionado (<[var_o o := v]> a) corredores
          = verifica_corridor_selecionado a corredores).
Proof.
  assert (Ho : ∀ k', k' ∉ var_o <$> keys pedidos →
            ∀ e, e ∈ pedidos → pedido_sel (<[k' := v]> a) e.1 = pedido_sel a e.1).
  { intros k' Hk e He. unfold pedido_sel. rewrite get0_insert_ne; [reflexivity|].
    intros ->. apply Hk. unfold keys. rewrite <- list_fmap_compose.
    apply list_elem_of_fmap. exists e. auto. }
  assert (Hc : ∀ k', k' ∉ var_c <$> keys corredores →
            ∀ e, e ∈ corredores → get0 (<[k' := v]> a) (var_c e.1) = get0 a (var_c e.1)).
  { intros k' Hk e He. rewrite get0_insert_ne; [reflexivity|].
    intros ->. apply Hk. unfold keys. rewrite <- list_fmap_compose.
    apply list_elem_of_fmap. exists e. auto. }
  assert (Hoc : ∀ c, var_c c ∉ var_o <$> keys pedidos).
  { intros c Hin. apply list_elem_of_fmap in Hin as (o & E & _).
    exact (var_o_c o c (eq_sym E)). }
  assert (Hco : ∀ o, var_o o ∉ var_c <$> keys corredores).
  { intros o Hin. apply list_elem_of_fmap in Hin as (c & E & _).
    exact (var_o_c o c E). }
  split; [intros Hk; apply wave_ext, Ho, Hk|].
  split; [intros Hk; apply corridor_ext, Hc, Hk|].
  split; [|split].
  - intros Hk. unfold nomes in Hk. rewrite elem_of_app in Hk.
    assert (Hk1 : k ∉ var_o <$> keys pedidos) by tauto.
    assert (Hk2 : k ∉ var_c <$> keys corredores) by tauto.
    assert (Hcap : verifica_capacidade (<[k := v]> a) pedidos corredores
                   = verifica_capacidade a pedidos corredores).
    { apply capacidade_ext; [apply Ho, Hk1|].
      intros e He. unfold corredor_sel. rewrite (Hc k Hk2 e He). reflexivity. }
    split; [exact Hcap|]. unfold check_global_constraints.
    rewrite (wave_ext a _ pedidos lb ub (Ho k Hk1)), Hcap,
      (corridor_ext a _ corredores (Hc k Hk2)). reflexivity.
  - intros c. apply wave_ext, Ho, Hoc.
  - intros o. apply corridor_ext, Hc, Hco.
Qed.

Lemma py_sum_indicator {A : Type} (sel : A → bool) (val : A → Z) (l : list A) :
  (∀ e, e ∈ l → val e = if sel e then 1 else 0) →
  py_sum (map val l) = Z.of_nat (length (List.filter sel l)).
Proof.
  induction l as [|e l IH]; intros H; simpl; [reflexivity|].
  rewrite py_sum_cons, IH by (intros e' He'; apply H; right; exact He').
  rewrite (H e) by left. destruct (sel e); simpl length; lia.
Qed.

Lemma corridor_ok_iff (a : gmap string Z) (corredores : list (Z * gmap Z Z)) :
  (∀ e, e ∈ corredores → get0 a (var_c e.1) = 0 ∨ get0 a (var_c e.1) = 1) →
  (verifica_corridor_selecionado a corredores).1 = true
  ↔ ∃ e, e ∈ corredores ∧ corredor_sel a e.1 = true.
Proof.
  intros H01. unfold verifica_corridor_selecionado. cbn [fst].
  rewrite (py_sum_indicator (λ e : Z * gmap Z Z, corredor_sel a e.1)), Z.ltb_lt.
  2:{ intros e He. unfold corredor_sel. destruct (H01 e He) as [-> | ->]; reflexivity. }
  split.
  - intros Hpos.
    destruct (List.filter (λ e : Z * gmap Z Z, corredor_sel a e.1) corredores)
      as [|e l] eqn:Ef; [simpl in Hpos; lia|].
    assert (Hin : In e (List.filter (λ e : Z * gmap Z Z, corredor_sel a e.1) corredores))
      by (rewrite Ef; left; reflexivity).
    apply filter_In in Hin as [Hin Hsel]. exists e.
    split; [apply list_elem_of_In, Hin | exact Hsel].
  - intros (e & Hin & Hsel).
    assert (Hf : In e (List.filter (λ e : Z * gmap Z Z, corredor_sel a e.1) corredores)).
    { apply filter_In. split; [apply list_elem_of_In, Hin | exact Hsel]. }
    destruct (List.filter (λ e : Z * gmap Z Z, corredor_sel a e.1) corredores);
      [inversion Hf | simpl; lia].
Qed.

(** X5. On an assignment that gives every corridor variable the
    value 0 or 1 (or none), the count returned by the activity check is
    the number of selected corridors, and its answer is true exactly when
    some corridor is selected. *)
Theorem verifica_corridor_selecionado_conta (a : gmap string Z)
    (corredores : list (Z * gmap Z Z)) :
  (∀ e, e ∈ corredores → get0 a (var_c e.1) = 0 ∨ get0 a (var_c e.1) = 1) →
  (verifica_corridor_selecionado a corredores).2
  = Z.of_nat (length (List.filter (λ e : Z * gmap Z Z, corredor_sel a e.1) corredores))
  ∧ ((verifica_corridor_selecionado a corredores).1 = true
     ↔ ∃ e, e ∈ corredores ∧ corredor_sel a e.1 = true).
Proof.
  intros H01. split; [|apply corridor_ok_iff, H01].
  unfold verifica_corridor_selecionado. cbn [snd].
  apply (py_sum_indicator (λ e : Z * gmap Z Z, corredor_sel a e.1)).
  intros e He. unfold corredor_sel.
  destruct (H01 e He) as [Hz|Hu]; rewrite ?Hz, ?Hu; reflexivity.
Qed.

Lemma get0_nonneg (corredores : list (Z * gmap Z Z)) (e : Z * gmap Z Z) (item : Z) :
  capacidades_nao_negativas corredores → e ∈ corredores → 0 ≤ get0 e.2 item.
Proof.
  intros H He. unfold get0. destruct (e.2 !! item) as [q|] eqn:E; simpl; [|lia].
  exact (proj1 (Forall_forall _ _) H e He item q E).
Qed.

Lemma oferta_mono (a a' : gmap string Z) (corredores : list (Z * gmap Z Z)) (item : Z) :
  capacidades_nao_negativas corredores →
  (∀ e, e ∈ corredores → corredor_sel a e.1 = true → corredor_sel a' e.1 = true) →
  oferta a corredores item ≤ oferta a' corredores item.
Proof.
  unfold oferta. induction corredores as [|e l IH]; intros Hnn Hsel; simpl; [lia|].
  assert (IH' : py_sum (map (λ e : Z * gmap Z Z, get0 e.2 item)
                  (List.filter (λ e : Z * gmap Z Z, corredor_sel a e.1) l))
                ≤ py_sum (map (λ e : Z * gmap Z Z, get0 e.2 item)
                  (List.filter (λ e : Z * gmap Z Z, corredor_sel a' e.1) l))).
  { apply IH.
    - apply Forall_cons in Hnn as [_ Hnn]. exact Hnn.
    - intros e' He'. apply Hsel. right. exact He'. }
  pose proof (get0_nonneg (e :: l) e item Hnn ltac:(left)) as H0.
  pose proof (Hsel e ltac:(left)) as He.
  destruct (corredor_sel a e.1); [rewrite He by reflexivity|];
    [|destruct (corredor_sel a' e.1)]; simpl; rewrite ?py_sum_cons; lia.
Qed.

Lemma oferta_nonneg (a : gmap string Z) (corredores : list (Z * gmap Z Z)) (item : Z) :
  capacidades_nao_negativas corredores → 0 ≤ oferta a corredores item.
Proof.
  unfold oferta. induction corredores as [|e l IH]; intros Hnn; simpl; [rewrite py_sum_nil; lia|].
  assert (IH' : 0 ≤ py_sum (map (λ e : Z * gmap Z Z, get0 e.2 item)
                  (List.filter (λ e : Z * gmap Z Z, corredor_sel a e.1) l))).
  { apply IH. apply Forall_cons in Hnn as [_ Hnn]. exact Hnn. }
  pose proof (get0_nonneg (e :: l) e item Hnn ltac:(left)) as H0.
  destruct (corredor_sel a e.1); simpl; rewrite ?py_sum_cons; lia.
Qed.

Lemma demanda_sem_pedidos (a : gmap string Z) (pedidos : list (Z * gmap Z Z)) (item : Z) :
  (∀ e, e ∈ pedidos → pedido_sel a e.1 = false) → demanda a pedidos item = 0.
Proof.
  intros Hsel. unfold demanda.
  replace (List.filter (λ e : Z * gmap Z Z, pedido_sel a e.1) pedidos)
    with (@nil (Z * gmap Z Z)); [reflexivity|].
  symmetry. induction pedidos as [|e l IH]; simpl; [reflexivity|].
  rewrite (Hsel e) by left. apply IH. intros e' He'. apply Hsel. right. exact He'.
Qed.

(** X6. With no order selected the demand of every item is 0, so the
    capacity check passes on any selection of corridors, provided no
    capacity is negative. *)
Theorem verifica_capacidade_sem_pedidos (a : gmap string Z)
    (pedidos corredores : list (Z * gmap Z Z)) :
  capacidades_nao_negativas corredores →
  (∀ e, e ∈ pedidos → pedido_sel a e.1 = false) →
  (∀ item, demanda a pedidos item = 0)
  ∧ verifica_capacidade a pedidos corredores = true.
Proof.
  intros Hnn Hsel.
  split; [intros item; apply demanda_sem_pedidos, Hsel|].
  apply capacidade_true. intros item _.
  rewrite (demanda_sem_pedidos a pedidos item Hsel).
  apply oferta_nonneg, Hnn.
Qed.

(** X7. Selecting more corridors never breaks the capacity check:
    when no capacity is negative, an assignment that selects the same
    orders and at least the same corridors as one that passes the check
    passes it too. *)
Theorem verifica_capacidade_mono (a a' : gmap string Z)
    (pedidos corredores : list (Z * gmap Z Z)) :
  capacidades_nao_negativas corredores →
  (∀ e, e ∈ pedidos → pedido_sel a' e.1 = pedido_sel a e.1) →
  (∀ e, e ∈ corredores → corredor_sel a e.1 = true → corredor_sel a' e.1 = true) →
  verifica_capacidade a pedidos corredores = true →
  verifica_capacidade a' pedidos corredores = true.
Proof.
  intros Hnn Hp Hc. rewrite !capacidade_true. intros H item Hin.
  rewrite (demanda_ext a a' pedidos item Hp).
  pose proof (H item Hin). pose proof (oferta_mono a a' corredores item Hnn Hc). lia.
Qed.

Lemma demanda_mono (a a' : gmap string Z) (pedidos : list (Z * gmap Z Z)) (item : Z) :
  quantidades_nao_negativas pedidos →
  (∀ e, e ∈ pedidos → pedido_sel a' e.1 = true → pedido_sel a e.1 = true) →
  demanda a' pedidos item ≤ demanda a pedidos item.
Proof.
  unfold demanda. induction pedidos as [|e l IH]; intros Hnn Hsel; simpl; [lia|].
  assert (IH' : py_sum (map (λ e : Z * gmap Z Z, get0 e.2 item)
                  (List.filter (λ e : Z * gmap Z Z, pedido_sel a' e.1) l))
                ≤ py_sum (map (λ e : Z * gmap Z Z, get0 e.2 item)
                  (List.filter (λ e : Z * gmap Z Z, pedido_sel a e.1) l))).
  { apply IH.
    - apply Forall_cons in Hnn as [_ Hnn]. exact Hnn.
    - intros e' He'. apply Hsel. right. exact He'. }
  pose proof (get0_nonneg (e :: l) e item Hnn ltac:(left)) as H0.
  pose proof (Hsel e ltac:(left)) as He.
  destruct (pedido_sel a' e.1); [rewrite He by reflexivity|];
    [|destruct (pedido_sel a e.1)]; simpl; rewrite ?py_sum_cons; lia.
Qed.

(** X18. Dropping orders never breaks the capacity check: when no
    quantity is negative, an assignment that selects the same corridors
    and at most the same orders as one that passes the check passes it
    too. *)
Theorem verifica_capacidade_menos_pedidos (a a' : gmap string Z)
    (pedidos corredores : list (Z * gmap Z Z)) :
  quantidades_nao_negativas pedidos →
  (∀ e, e ∈ pedidos → pedido_sel a' e.1 = true → pedido_sel a e.1 = true) →
  (∀ e, e ∈ corredores → corredor_sel a' e.1 = corredor_sel a e.1) →
  verifica_capacidade a pedidos corredores = true →
  verifica_capacidade a' pedidos corredores = true.
Proof.
  intros Hnn Hp Hc. rewrite !capacidade_true. intros H item Hin.
  rewrite (oferta_ext a a' corredores item Hc).
  pose proof (H item Hin). pose proof (demanda_mono a a' pedidos item Hnn Hp). lia.
Qed.

(** X8. The answer of the combinator is the conjunction of the three
    checks, whatever the order in which it runs them; its total is the
    total of the selected orders on every path; and when it answers true
    its count is the one of the activity check, at least 1, while a
    false answer never comes with a positive count. *)
Theorem check_global_constraints_conj (a : gmap string Z)
    (pedidos corredores : list (Z * gmap Z Z)) (lb ub : Z) :
  let r := check_global_constraints a pedidos corredores lb ub in
  r.1.1 = ((verifica_tamanho_wave a pedidos lb ub).1
           && verifica_capacidade a pedidos corredores
           && (verifica_corridor_selecionado a corredores).1)
  ∧ r.1.2 = total_selecionado a pedidos
  ∧ (r.1.1 = true →
       r.2 = (verifica_corridor_selecionado a corredores).2 ∧ 1 ≤ r.2)
  ∧ (r.1.1 = false → r.2 ≤ 0).
Proof.
  intros r. subst r. unfold check_global_constraints.
  pose proof (wave_total a pedidos lb ub) as Ht.
  destruct (verifica_tamanho_wave a pedidos lb ub) as [ok t]. cbn [fst snd] in *. subst t.
  destruct ok; cbn; [|repeat split; auto; discriminate].
  destruct (verifica_capacidade a pedidos corredores); cbn;
    [|repeat split; auto; discriminate].
  unfold verifica_corridor_selecionado. cbn.
  destruct (Z.ltb_spec 0 (py_sum (map (λ e : Z * gmap Z Z, get0 a (var_c e.1)) corredores)));
    cbn; repeat split; auto; try discriminate; try lia.
Qed.

(** ** The objective *)

(** X9. [calcular_valor_objetivo] never divides by zero: for a count
    that is 0 or negative it returns the integer 0, whatever the total;
    for a positive count it returns a finite float, or raises
    [OverflowError] when the quotient is beyond the range of a float. *)
Theorem calcular_valor_objetivo_guard (total_unidades num_corr : Z) :
  calcular_valor_objetivo total_unidades num_corr ≠ Raise ZeroDivisionError
  ∧ (num_corr ≤ 0 → calcular_valor_objetivo total_unidades num_corr = Done (PyInt 0))
  ∧ (0 < num_corr →
       (∃ f q, calcular_valor_objetivo total_unidades num_corr = Done (PyFloat f)
               ∧ sf_value f = Fin q)
       ∨ calcular_valor_objetivo total_unidades num_corr = Raise OverflowError).
Proof.
  unfold calcular_valor_objetivo.
  destruct (Z.ltb_spec 0 num_corr) as [Hpos|Hle].
  - assert (Hdiv : (∃ f, int_truediv total_unidades num_corr = Done f)
                   ∨ int_truediv total_unidades num_corr = Raise OverflowError).
    { unfold int_truediv. destruct (Z.eqb_spec num_corr 0); [lia|].
      destruct (SFdiv 53 1024 (z2sf total_unidades) (z2sf num_corr)); eauto. }
    destruct Hdiv as [[f Hf]|Hov].
    + rewrite Hf. cbn. split; [discriminate|]. split; [lia|]. intros _. left.
      destruct (int_truediv_fin _ _ _ Hf) as (_ & _ & q & Hq). eauto.
    + rewrite Hov. cbn. split; [discriminate|]. split; [lia|]. auto.
  - cbn. split; [discriminate|]. split; [reflexivity | lia].
Qed.

(** ** The enumerator *)

Lemma size_unassigned (vars : list string) :
  NoDup vars → ∀ a : gmap string Z,
  (∀ k, is_Some (a !! k) → k ∈ vars) →
  (size a + length (List.filter (λ v, bool_decide (a !! v = None)) vars))%nat
  = length vars.
Proof.
  induction 1 as [|x l Hx Hnd IH]; intros a Hkeys; simpl.
  - assert (a = ∅) as ->.
    { apply map_empty. intros k. apply eq_None_not_Some. intros Hk.
      specialize (Hkeys k Hk). inversion Hkeys. }
    rewrite map_size_empty. reflexivity.
  - assert (Hfil : List.filter (λ v, bool_decide (a !! v = None)) l
                   = List.filter (λ v, bool_decide (delete x a !! v = None)) l).
    { apply List.filter_ext_in. intros u Hu. apply list_elem_of_In in Hu.
      rewrite lookup_delete_ne by (intros ->; contradiction). reflexivity. }
    assert (Hkeys' : ∀ k, is_Some (delete x a !! k) → k ∈ l).
    { intros k Hk. destruct (decide (x = k)) as [->|Hne].
      - rewrite lookup_delete_eq in Hk. destruct Hk; discriminate.
      - rewrite lookup_delete_ne in Hk by exact Hne.
        specialize (Hkeys k Hk).
        apply elem_of_cons in Hkeys as [->|?]; [contradiction|assumption]. }
    specialize (IH (delete x a) Hkeys'). rewrite <- Hfil in IH.
    pose proof (map_size_delete x a) as Hs.
    destruct (a !! x) as [y|] eqn:Ex.
    + rewrite bool_decide_eq_false_2 by discriminate.
      pose proof (map_size_ne_0_lookup_2 a x (ex_intro _ y Ex)) as Hne.
      simpl in Hs. lia.
    + rewrite bool_decide_eq_true_2 by reflexivity. simpl in *. lia.
Qed.

Lemma filter_unassigned_insert (a : gmap string Z) (v : string) (val : Z)
    (vars rest : list string) :
  NoDup vars →
  List.filter (λ u, bool_decide (a !! u = None)) vars = v :: rest →
  List.filter (λ u, bool_decide (<[v := val]> a !! u = None)) vars = rest.
Proof.
  intros Hnd Hrest.
  assert (Hnd' : NoDup (v :: rest)).
  { rewrite <- Hrest. clear -Hnd.
    induction Hnd as [|x l Hx Hnd IH]; simpl; [constructor|].
    destruct (bool_decide (a !! x = None)); [|exact IH].
    constructor; [|exact IH]. intros Hin.
    apply list_elem_of_In, filter_In in Hin as [Hin _].
    apply Hx, list_elem_of_In, Hin. }
  apply NoDup_cons in Hnd' as [Hv _].
  transitivity (List.filter (λ u, bool_decide (u ≠ v))
                  (List.filter (λ u, bool_decide (a !! u = None)) vars)).
  - clear. induction vars as [|x l IH]; simpl; [reflexivity|].
    destruct (decide (v = x)) as [->|Hne].
    + rewrite lookup_insert_eq. rewrite bool_decide_eq_false_2 by discriminate.
      destruct (bool_decide (a !! x = None)); simpl; [|exact IH].
      rewrite bool_decide_eq_false_2 by (intros H; apply H; reflexivity). exact IH.
    + rewrite lookup_insert_ne by exact Hne.
      destruct (bool_decide (a !! x = None)); simpl; [|exact IH].
      rewrite bool_decide_eq_true_2 by congruence. f_equal. exact IH.
  - rewrite Hrest. simpl.
    rewrite bool_decide_eq_false_2 by (intros H; apply H; reflexivity).
    clear -Hv. induction rest as [|x l IH]; simpl; [reflexivity|].
    rewrite bool_decide_eq_true_2 by (intros ->; apply Hv; left).
    f_equal. apply IH. intros Hin. apply Hv. right. exact Hin.
Qed.

Section partial_start.
Variable csp : PedidosCSP.
Hypothesis vars_nodup : NoDup (variables csp).
Hypothesis dom_01 : ∀ v, v ∈ variables csp → domains csp !! v = Some [0; 1].
Hypothesis has_neighbors : ∀ v, v ∈ variables csp → is_Some (neighbors csp !! v).
Hypothesis no_conflict : ∀ A a B b, constraints csp A a B b = true.

(** From an assignment of some of the variables, the search visits the
    extensions of that assignment on the unbound variables. *)
Lemma all_solutions_fuel_partial (rest : list string) :
  ∀ (a : gmap string Z) (fuel : nat),
    List.filter (λ v, bool_decide (a !! v = None)) (variables csp) = rest →
    (∀ k, is_Some (a !! k) → k ∈ variables csp) →
    (length rest < fuel)%nat →
    all_solutions_fuel fuel csp a
    = Done (List.filter (goal_test csp) (extensions a rest), a).
Proof.
  induction rest as [|v rest IH]; intros a fuel Hrest Hkeys Hfuel;
    (destruct fuel as [|fuel]; [simpl in Hfuel; lia|]); simpl;
    pose proof (size_unassigned _ vars_nodup a Hkeys) as Hsize;
    rewrite Hrest in Hsize; simpl in Hsize.
  - rewrite (proj2 (Nat.eqb_eq _ _)) by lia. reflexivity.
  - rewrite (proj2 (Nat.eqb_neq _ _)) by lia.
    rewrite Hrest. simpl.
    assert (Hin : In v (List.filter (λ v, bool_decide (a !! v = None)) (variables csp)))
      by (rewrite Hrest; left; reflexivity).
    apply filter_In in Hin as [Hin Hv]. apply list_elem_of_In in Hin.
    apply bool_decide_eq_true in Hv.
    unfold choices. rewrite (dom_01 v Hin). simpl.
    assert (Hstep : ∀ val, all_solutions_fuel fuel csp (assign v val a)
              = Done (List.filter (goal_test csp) (extensions (<[v := val]> a) rest),
                      <[v := val]> a)).
    { intros val. apply IH.
      - apply (filter_unassigned_insert a v val _ rest vars_nodup Hrest).
      - intros k. unfold assign. rewrite lookup_insert_is_Some.
        intros [<-|[_ Hk]]; [exact Hin | apply Hkeys, Hk].
      - simpl in Hfuel. lia. }
    rewrite !(nconflicts_zero csp has_neighbors no_conflict) by exact Hin. simpl.
    rewrite (Hstep 0). simpl. unfold unassign at 2.
    rewrite delete_insert_id by exact Hv.
    rewrite !(nconflicts_zero csp has_neighbors no_conflict) by exact Hin. simpl.
    rewrite (Hstep 1). simpl. unfold unassign.
    rewrite delete_insert_id by exact Hv.
    rewrite List.filter_app. reflexivity.
Qed.
End partial_start.

Lemma NoDup_filter_unassigned (a : gmap string Z) (vars : list string) :
  NoDup vars → NoDup (List.filter (λ v, bool_decide (a !! v = None)) vars).
Proof.
  induction 1 as [|x l Hx Hnd IH]; simpl; [constructor|].
  destruct (bool_decide (a !! x = None)); [|exact IH].
  constructor; [|exact IH]. intros Hin.
  apply list_elem_of_In, filter_In in Hin as [Hin _].
  apply Hx, list_elem_of_In, Hin.
Qed.

(** The extensions of [a] on names that [a] leaves unbound: the maps
    that contain [a], bind the names of [a] and of [rest] and no other,
    and give 0 or 1 to each name of [rest]. *)
Lemma elem_of_extensions (a : gmap string Z) (rest : list string) (y : gmap string Z) :
  NoDup rest → (∀ v, v ∈ rest → a !! v = None) →
  y ∈ extensions a rest
  ↔ a ⊆ y ∧ dom y = dom a ∪ list_to_set rest
    ∧ ∀ k x, a !! k = None → y !! k = Some x → x = 0 ∨ x = 1.
Proof.
  intros Hnd Hrest. rewrite (extensions_union rest Hnd a), list_elem_of_fmap.
  split.
  - intros (b & -> & Hb). apply (elem_of_all_assignments rest Hnd) in Hb as [Hdom H01].
    assert (Hdisj : b ##ₘ a).
    { apply map_disjoint_spec. intros k x x' Hk Ha.
      assert (Hin : k ∈ dom b) by (apply elem_of_dom; eauto).
      rewrite Hdom, elem_of_list_to_set in Hin. rewrite (Hrest k Hin) in Ha. discriminate. }
    split; [apply map_union_subseteq_r, Hdisj|]. split.
    + rewrite dom_union_L, Hdom. set_solver.
    + intros k x Hk. rewrite (lookup_union_l b a k Hk). apply H01.
  - intros (Hsub & Hdom & H01). exists (y ∖ a). split.
    + rewrite <- (map_difference_union a y Hsub) at 1.
      apply map_union_comm, map_disjoint_spec. intros k x x' Ha Hd.
      apply lookup_difference_Some in Hd as [_ Hd]. congruence.
    + apply (elem_of_all_assignments rest Hnd). split.
      * apply set_eq. intros k. rewrite elem_of_dom, elem_of_list_to_set.
        unfold is_Some. setoid_rewrite lookup_difference_Some. split.
        -- intros (x & Hy & Ha).
           assert (Hk : k ∈ dom y) by (apply elem_of_dom; eauto).
           rewrite Hdom, elem_of_union, elem_of_list_to_set in Hk.
           destruct Hk as [Hk|Hk]; [|exact Hk].
           apply elem_of_dom in Hk as [? Hk]. congruence.
        -- intros Hk.
           assert (Hy : k ∈ dom y) by (rewrite Hdom; set_solver).
           apply elem_of_dom in Hy as [x Hy]. exists x. split; [exact Hy | apply Hrest, Hk].
      * intros k x Hd. apply lookup_difference_Some in Hd as [Hy Ha]. exact (H01 k x Ha Hy).
Qed.

(** X10. Started on an assignment that already binds some of the
    variables, the search ends, leaves that assignment as it was, and
    yields exactly the complete assignments that contain it, give 0 or 1
    to each variable it left unbound, and pass the three checks. *)
Theorem all_solutions_partial (pedidos corredores : list (Z * gmap Z Z)) (lb ub : Z)
    (a : gmap string Z) :
  NoDup (keys pedidos) → NoDup (keys corredores) →
  dom a ⊆ list_to_set (nomes pedidos corredores) →
  ∃ ys, all_solutions (problema pedidos corredores lb ub) a = Done (ys, a)
    ∧ ∀ y, y ∈ ys
        ↔ a ⊆ y
          ∧ dom y = list_to_set (nomes pedidos corredores)
          ∧ (∀ k x, a !! k = None → y !! k = Some x → x = 0 ∨ x = 1)
          ∧ viavel pedidos corredores lb ub y = true.
Proof.
  intros Hp Hc Hdom. pose proof (NoDup_nomes _ _ Hp Hc) as Hnd.
  set (csp := problema pedidos corredores lb ub).
  assert (Hvars : variables csp = nomes pedidos corredores)
    by apply problema_variables.
  set (rest := List.filter (λ v, bool_decide (a !! v = None)) (nomes pedidos corredores)).
  assert (Hrun : all_solutions csp a
                 = Done (List.filter (goal_test csp) (extensions a rest), a)).
  { unfold all_solutions. apply all_solutions_fuel_partial.
    - rewrite Hvars. exact Hnd.
    - subst csp. rewrite problema_fields. simpl.
      apply (proj2 (criar_variaveis_spec pedidos corredores)).
    - subst csp. rewrite problema_fields. simpl. intros v. apply criar_neighbors_spec.
    - subst csp. rewrite problema_fields. reflexivity.
    - rewrite Hvars. reflexivity.
    - rewrite Hvars. intros k Hk. apply elem_of_dom in Hk.
      apply Hdom, elem_of_list_to_set in Hk. exact Hk.
    - rewrite Hvars. pose proof (List.filter_length_le
        (λ v, bool_decide (a !! v = None)) (nomes pedidos corredores)). fold rest in H. lia. }
  eexists. split; [exact Hrun|]. intros y.
  assert (Hrest : ∀ v, v ∈ rest ↔ v ∈ nomes pedidos corredores ∧ a !! v = None).
  { intros v. unfold rest. rewrite !list_elem_of_In, filter_In, bool_decide_eq_true.
    reflexivity. }
  assert (Hset : dom a ∪ list_to_set rest = (list_to_set (nomes pedidos corredores) : gset string)).
  { apply set_eq. intros k.
    rewrite elem_of_union, !elem_of_list_to_set, Hrest, elem_of_dom. split.
    - intros [Hk|[Hk _]]; [|exact Hk].
      apply elem_of_dom in Hk. apply Hdom, elem_of_list_to_set in Hk. exact Hk.
    - intros Hk. destruct (a !! k) eqn:E; [left; eauto | right; auto]. }
  rewrite list_elem_of_In, filter_In, <- list_elem_of_In.
  rewrite (elem_of_extensions a rest y (NoDup_filter_unassigned a _ Hnd)
             (λ v Hv, proj2 (proj1 (Hrest v) Hv))).
  rewrite Hset, goal_test_true. subst csp. rewrite problema_variables, problema_fields.
  simpl. split.
  - intros [(Hsub & Hd & H01) [_ Hv]]. auto.
  - intros (Hsub & Hd & H01 & Hv). split; [auto|]. split; [|exact Hv].
    rewrite <- size_dom, Hd. apply size_list_to_set, Hnd.
Qed.

(** ** The list of solutions *)

Lemma NoDup_all_assignments (vars : list string) :
  NoDup vars → NoDup (all_assignments vars).
Proof.
  induction 1 as [|v vs Hv Hnd IH]; simpl; [apply NoDup_singleton|].
  assert (Hnone : ∀ b, b ∈ all_assignments vs → b !! v = None).
  { intros b Hb. apply all_assignments_dom in Hb. apply not_elem_of_dom.
    rewrite Hb, elem_of_list_to_set. exact Hv. }
  apply NoDup_app. repeat split.
  - apply NoDup_fmap_2_strong; [|exact IH]. intros b b' Hb Hb' E.
    rewrite <- (delete_insert_id b v 0 (Hnone b Hb)),
            <- (delete_insert_id b' v 0 (Hnone b' Hb')), E. reflexivity.
  - intros y H0 H1. apply list_elem_of_fmap in H0 as (b & -> & _).
    apply list_elem_of_fmap in H1 as (b' & E & _).
    apply (f_equal (λ m : gmap string Z, m !! v)) in E.
    rewrite !lookup_insert_eq in E. discriminate.
  - apply NoDup_fmap_2_strong; [|exact IH]. intros b b' Hb Hb' E.
    rewrite <- (delete_insert_id b v 1 (Hnone b Hb)),
            <- (delete_insert_id b' v 1 (Hnone b' Hb')), E. reflexivity.
Qed.

Lemma filter_sublist {A : Type} (f : A → bool) (l : list A) :
  List.filter f l `sublist_of` l.
Proof.
  induction l as [|x l IH]; simpl; [constructor|].
  destruct (f x); [apply sublist_skip | apply sublist_cons]; exact IH.
Qed.

Lemma filter_sublist_impl {A : Type} (f g : A → bool) (l : list A) :
  (∀ x, f x = true → g x = true) →
  List.filter f l `sublist_of` List.filter g l.
Proof.
  intros H. induction l as [|x l IH]; simpl; [constructor|].
  destruct (f x) eqn:Ef.
  - rewrite (H x Ef). apply sublist_skip, IH.
  - destruct (g x); [apply sublist_cons|]; exact IH.
Qed.

(** X11. The search yields no assignment twice, and at most
    2^(n+m) assignments for n orders and m corridors. *)
Theorem all_solutions_sem_repeticao (pedidos corredores : list (Z * gmap Z Z)) (lb ub : Z) :
  NoDup (keys pedidos) → NoDup (keys corredores) →
  ∃ ys, all_solutions (problema pedidos corredores lb ub) ∅ = Done (ys, ∅)
    ∧ NoDup ys
    ∧ (length ys ≤ 2 ^ (length pedidos + length corredores))%nat.
Proof.
  intros Hp Hc. exists (brute_force pedidos corredores lb ub).
  split; [apply problema_solutions; assumption|].
  pose proof (filter_sublist (viavel pedidos corredores lb ub)
                (all_assignments (nomes pedidos corredores))) as Hsub.
  fold (brute_force pedidos corredores lb ub) in Hsub. split.
  - eapply sublist_NoDup; [|exact Hsub].
    apply NoDup_all_assignments, NoDup_nomes; assumption.
  - apply sublist_length in Hsub. rewrite all_assignments_length in Hsub.
    unfold nomes, keys in Hsub. rewrite length_app, !length_fmap in Hsub. exact Hsub.
Qed.

(** X12. Widening the band never loses a solution: with a lower bound
    no greater and an upper bound no smaller, the search yields every
    assignment it yielded before, in the same relative order. *)
Theorem all_solutions_banda_mono (pedidos corredores : list (Z * gmap Z Z))
    (lb ub lb' ub' : Z) :
  NoDup (keys pedidos) → NoDup (keys corredores) →
  lb' ≤ lb → ub ≤ ub' →
  ∃ ys ys',
    all_solutions (problema pedidos corredores lb ub) ∅ = Done (ys, ∅)
    ∧ all_solutions (problema pedidos corredores lb' ub') ∅ = Done (ys', ∅)
    ∧ ys `sublist_of` ys'.
Proof.
  intros Hp Hc Hlb Hub.
  exists (brute_force pedidos corredores lb ub), (brute_force pedidos corredores lb' ub').
  split; [apply problema_solutions; assumption|].
  split; [apply problema_solutions; assumption|].
  apply filter_sublist_impl. intros y. unfold viavel. rewrite !andb_true_iff, !wave_ok.
  intros [[Hw Hcap] Hact]. repeat split; try assumption; lia.
Qed.

(** ** Edge cases of [main] *)

Lemma inviavel_sem_solucao (pedidos corredores : list (Z * gmap Z Z)) (lb ub : Z) :
  NoDup (keys pedidos) → NoDup (keys corredores) →
  (∀ y, viavel pedidos corredores lb ub y = false) →
  all_solutions (problema pedidos corredores lb ub) ∅ = Done ([], ∅)
  ∧ main_on pedidos corredores lb ub = Done NenhumaSolucao.
Proof.
  intros Hp Hc Hno.
  assert (E : brute_force pedidos corredores lb ub = []).
  { unfold brute_force.
    induction (all_assignments (nomes pedidos corredores)) as [|y l IH]; simpl;
      [reflexivity|].
    rewrite Hno. exact IH. }
  pose proof (problema_solutions pedidos corredores lb ub Hp Hc) as Hall.
  rewrite E in Hall. split; [exact Hall|].
  unfold main_on. rewrite Hall. reflexivity.
Qed.

(** X13. With no corridor at all there is no feasible wave, whatever
    the orders and the band: the activity check counts 0 corridors on
    every assignment, the search yields nothing and [main_on] answers
    that there is no solution. *)
Theorem sem_corredores (pedidos : list (Z * gmap Z Z)) (lb ub : Z) :
  NoDup (keys pedidos) →
  (∀ a, verifica_corridor_selecionado a [] = (false, 0))
  ∧ all_solutions (problema pedidos [] lb ub) ∅ = Done ([], ∅)
  ∧ main_on pedidos [] lb ub = Done NenhumaSolucao.
Proof.
  intros Hp. split; [reflexivity|].
  apply inviavel_sem_solucao; [exact Hp | constructor |].
  intros y. unfold viavel. apply andb_false_intro2. reflexivity.
Qed.

(** X14. With an empty band, an upper bound below the lower bound,
    the band check fails on every assignment, the search yields nothing
    and [main_on] answers that there is no solution. *)
Theorem banda_vazia (pedidos corredores : list (Z * gmap Z Z)) (lb ub : Z) :
  NoDup (keys pedidos) → NoDup (keys corredores) →
  ub < lb →
  (∀ a, (verifica_tamanho_wave a pedidos lb ub).1 = false)
  ∧ all_solutions (problema pedidos corredores lb ub) ∅ = Done ([], ∅)
  ∧ main_on pedidos corredores lb ub = Done NenhumaSolucao.
Proof.
  intros Hp Hc Hlt.
  assert (Hw : ∀ a, (verifica_tamanho_wave a pedidos lb ub).1 = false).
  { intros a. apply not_true_iff_false. rewrite wave_ok. lia. }
  split; [exact Hw|]. apply inviavel_sem_solucao; [exact Hp | exact Hc |].
  intros y. unfold viavel. rewrite Hw. reflexivity.
Qed.

Lemma calcular_valor_objetivo_pos_or (total n : Z) :
  0 < n →
  (∃ obj, calcular_valor_objetivo total n = Done obj)
  ∨ calcular_valor_objetivo total n = Raise OverflowError.
Proof.
  intros Hn. unfold calcular_valor_objetivo, int_truediv.
  rewrite (proj2 (Z.ltb_lt 0 n) Hn).
  destruct (Z.eqb_spec n 0); [lia|].
  destruct (SFdiv 53 1024 (z2sf total) (z2sf n)); cbn; eauto.
Qed.

Lemma resultado_eq (pedidos corredores : list (Z * gmap Z Z)) (lb ub : Z)
    (y : gmap string Z) :
  resultado pedidos corredores lb ub y
  = (obj ← calcular_valor_objetivo (total_selecionado y pedidos)
             (verifica_corridor_selecionado y corredores).2;
     mret (y, total_selecionado y pedidos,
           (verifica_corridor_selecionado y corredores).2, obj)).
Proof. unfold resultado. cbv zeta. rewrite wave_total. reflexivity. Qed.

Lemma mapM_resultado (pedidos corredores : list (Z * gmap Z Z)) (lb ub : Z)
    (ys : list (gmap string Z)) :
  Forall (λ y, viavel pedidos corredores lb ub y = true) ys →
  (∃ rs, mapM (resultado pedidos corredores lb ub) ys = Done rs
         ∧ length rs = length ys)
  ∨ mapM (resultado pedidos corredores lb ub) ys = Raise OverflowError.
Proof.
  induction 1 as [|y ys Hy HF IH]; [left; exists []; auto|].
  destruct (check_true _ _ _ _ _ Hy) as (total & n & _ & Et & En & _ & Hn).
  cbn [mapM]. rewrite resultado_eq, <- Et, <- En.
  destruct (calcular_valor_objetivo_pos_or total n Hn) as [[obj ->]| ->]; cbn;
    [|right; reflexivity].
  destruct IH as [(rs & -> & Hlen)| ->]; cbn; [|right; reflexivity].
  left. eexists. split; [reflexivity|]. cbn. rewrite Hlen. reflexivity.
Qed.

Lemma py_max_elem {A : Type} (key : A → pynum) (l : list A) (b : A) :
  py_max key l = Done b → b ∈ l.
Proof.
  destruct l as [|x l]; [discriminate|]. cbn. intros [= <-].
  induction l as [|y l IH] using rev_ind; [left|].
  rewrite foldl_snoc. rewrite app_comm_cons.
  destruct (pynum_gt _ _); apply elem_of_app; [right; left | left; exact IH].
Qed.

(** X15. On problem data [main_on] raises no [KeyError], no
    [ZeroDivisionError] and no [ValueError] (it never takes the maximum
    of an empty list), and its recursion is within the budget: it ends
    with the answer that there is no solution, or with a best tuple that
    is one of the result list, or it raises [OverflowError] on a
    quotient beyond the range of a float. *)
Theorem main_on_desfechos (pedidos corredores : list (Z * gmap Z Z)) (lb ub : Z) :
  NoDup (keys pedidos) → NoDup (keys corredores) →
  main_on pedidos corredores lb ub = Done NenhumaSolucao
  ∨ (∃ best rs, main_on pedidos corredores lb ub = Done (Melhor best rs) ∧ best ∈ rs)
  ∨ main_on pedidos corredores lb ub = Raise OverflowError.
Proof.
  intros Hp Hc. unfold main_on.
  pose proof (problema_solutions pedidos corredores lb ub Hp Hc) as Hall.
  rewrite Hall. cbn.
  assert (HF : Forall (λ y, viavel pedidos corredores lb ub y = true)
                 (brute_force pedidos corredores lb ub)).
  { apply Forall_forall. intros y Hy. apply brute_force_elem in Hy as [_ Hv]. exact Hv. }
  destruct (brute_force pedidos corredores lb ub) as [|y ys]; [left; reflexivity|].
  right. destruct (mapM_resultado _ _ _ _ _ HF) as [(rs & -> & Hlen)| ->]; cbn;
    [|right; reflexivity].
  left. destruct (py_max (λ x : tuple, x.2) rs) as [best| |] eqn:Eb.
  - cbn. exists best, rs. split; [reflexivity | exact (py_max_elem _ _ _ Eb)].
  - destruct rs; [discriminate Hlen | discriminate Eb].
  - destruct rs; discriminate Eb.
Qed.

(** ** The analysis of the bounds *)

Lemma py_max_fmap {A : Type} (key : A → pynum) (l : list A) :
  py_max (λ x : pynum, x) (key <$> l) = (b ← py_max key l; mret (key b)).
Proof.
  destruct l as [|x l]; [reflexivity|]. cbn. f_equal.
  revert x. induction l as [|y l IH]; intros x; cbn; [reflexivity|].
  rewrite <- IH. destruct (pynum_gt (key y) (key x)); reflexivity.
Qed.

Lemma mapM_objetivos (pedidos corredores : list (Z * gmap Z Z)) (lb ub : Z)
    (ys : list (gmap string Z)) :
  Forall (λ y, viavel pedidos corredores lb ub y = true) ys →
  mapM (λ sol : gmap string Z,
          calcular_valor_objetivo
            (check_global_constraints sol pedidos corredores lb ub).1.2
            (check_global_constraints sol pedidos corredores lb ub).2) ys
  = (rs ← mapM (resultado pedidos corredores lb ub) ys; mret (snd <$> rs)).
Proof.
  induction 1 as [|y ys Hy HF IH]; [reflexivity|].
  destruct (check_true _ _ _ _ _ Hy) as (total & n & Ec & Et & En & _ & _).
  cbn [mapM]. rewrite IH, resultado_eq, <- Et, <- En, Ec. cbn [fst snd].
  destruct (calcular_valor_objetivo total n) as [obj| |]; cbn; try reflexivity.
  destruct (mapM (resultado pedidos corredores lb ub) ys) as [rs| |]; reflexivity.
Qed.

Lemma melhor_objetivo_main_on (pedidos corredores : list (Z * gmap Z Z)) (lb ub : Z) :
  let vd := criar_variaveis_e_dominios pedidos corredores in
  melhor_objetivo vd.1 vd.2 (criar_neighbors vd.1) pedidos corredores lb ub
  = match main_on pedidos corredores lb ub with
    | Done NenhumaSolucao => Done None
    | Done (Melhor best _) => Done (Some best.2)
    | Raise e => Raise e
    | OutOfFuel => OutOfFuel
    end.
Proof.
  intros vd. unfold melhor_objetivo, main_on.
  assert (Ecsp : PedidosCSP_init vd.1 vd.2 (criar_neighbors vd.1) pedidos corredores lb ub
                 = problema pedidos corredores lb ub).
  { unfold problema. subst vd.
    destruct (criar_variaveis_e_dominios pedidos corredores). reflexivity. }
  cbv zeta. rewrite Ecsp.
  destruct (all_solutions (problema pedidos corredores lb ub) ∅) as [[ys a']| |] eqn:Hall;
    cbn; try reflexivity.
  pose proof (all_solutions_fuel_ok _ _ _ _ Hall) as [_ Hgoal]. cbn in Hgoal.
  assert (HF : Forall (λ y, viavel pedidos corredores lb ub y = true) ys).
  { eapply Forall_impl; [exact Hgoal|]. intros y Hy. cbn in Hy.
    apply goal_test_true in Hy as [_ Hv]. rewrite problema_fields in Hv. exact Hv. }
  destruct ys as [|y ys]; [reflexivity|].
  rewrite (mapM_objetivos _ _ _ _ _ HF).
  destruct (mapM (resultado pedidos corredores lb ub) (y :: ys)) as [rs| |]; cbn;
    try reflexivity.
  change (rs.*2) with ((λ x : tuple, x.2) <$> rs).
  rewrite (py_max_fmap (λ x : tuple, x.2) rs).
  destruct (py_max (λ x : tuple, x.2) rs) as [best| |]; reflexivity.
Qed.

Lemma mapM_ext {A B : Type} (f g : A → result B) (l : list A) :
  (∀ x, f x = g x) → mapM f l = mapM g l.
Proof.
  intros H. induction l as [|x l IH]; [reflexivity|]. cbn [mapM]. rewrite H, IH. reflexivity.
Qed.

(** X16. The analysis of the bounds agrees with the ranking: for each
    pair of bounds, its loop gives [None] exactly when [main_on] finds no
    solution with these bounds, gives the objective of the best tuple of
    [main_on] otherwise, and raises what [main_on] raises.  The total and
    the count it takes from the combinator are those the ranking takes
    from the band and activity checks. *)
Theorem analise_main (pedidos corredores : list (Z * gmap Z Z)) (limites : list (Z * Z)) :
  analise pedidos corredores limites
  = mapM (λ lu : Z * Z,
            match main_on pedidos corredores lu.1 lu.2 with
            | Done NenhumaSolucao => Done None
            | Done (Melhor best _) => Done (Some best.2)
            | Raise e => Raise e
            | OutOfFuel => OutOfFuel
            end) limites.
Proof.
  unfold analise.
  pose proof (melhor_objetivo_main_on pedidos corredores) as H. cbv zeta in H.
  destruct (criar_variaveis_e_dominios pedidos corredores) as [variaveis dominios].
  apply mapM_ext. intros lu. apply H.
Qed.

(** ** The band [0, 0] *)

Lemma total_zero (y : gmap string Z) (pedidos : list (Z * gmap Z Z)) :
  Forall (λ e : Z * gmap Z Z, 0 < sum_values e.2) pedidos →
  0 ≤ total_selecionado y pedidos
  ∧ (total_selecionado y pedidos = 0 ↔ ∀ e, e ∈ pedidos → pedido_sel y e.1 = false).
Proof.
  unfold total_selecionado. induction 1 as [|e l He HF [IH0 IH]]; simpl.
  - rewrite py_sum_nil. split; [lia|]. split; [intros _ e He; inversion He | reflexivity].
  - destruct (pedido_sel y e.1) eqn:Es; simpl; rewrite ?py_sum_cons.
    + split; [lia|]. split; [lia|]. intros H. specialize (H e ltac:(left)). congruence.
    + split; [exact IH0|]. rewrite IH. split.
      * intros H e' He'. apply elem_of_cons in He' as [->|He']; [exact Es | apply H, He'].
      * intros H e' He'. apply H. right. exact He'.
Qed.

(** X17. With the band [0, 0], orders whose quantities sum to more
    than 0 and no negative capacity, the search yields exactly the
    complete assignments that select no order and at least one
    corridor. *)
Theorem banda_zero (pedidos corredores : list (Z * gmap Z Z)) :
  NoDup (keys pedidos) → NoDup (keys corredores) →
  capacidades_nao_negativas corredores →
  Forall (λ e : Z * gmap Z Z, 0 < sum_values e.2) pedidos →
  ∃ ys, all_solutions (problema pedidos corredores 0 0) ∅ = Done (ys, ∅)
    ∧ ∀ y, y ∈ ys
        ↔ (dom y = list_to_set (nomes pedidos corredores)
           ∧ ∀ v x, y !! v = Some x → x = 0 ∨ x = 1)
          ∧ (∀ e, e ∈ pedidos → y !! var_o e.1 = Some 0)
          ∧ (∃ e, e ∈ corredores ∧ y !! var_c e.1 = Some 1).
Proof.
  intros Hp Hc Hnn Hpos. exists (brute_force pedidos corredores 0 0).
  split; [apply problema_solutions; assumption|].
  intros y. rewrite brute_force_elem.
  rewrite (elem_of_all_assignments _ (NoDup_nomes _ _ Hp Hc)).
  split; intros [[Hdom H01] H]; (split; [split; assumption|]).
  - (* a yielded assignment *)
    unfold viavel in H. rewrite !andb_true_iff, wave_ok in H.
    destruct H as [[Hw _] Hact].
    destruct (total_zero y pedidos Hpos) as [H0 Hz].
    assert (Hsel : ∀ e, e ∈ pedidos → pedido_sel y e.1 = false) by (apply Hz; lia).
    split.
    + intros e He. specialize (Hsel e He). unfold pedido_sel, get0 in Hsel.
      assert (Hin : var_o e.1 ∈ dom y).
      { rewrite Hdom, elem_of_list_to_set. unfold nomes, keys.
        rewrite elem_of_app, <- !list_fmap_compose. left.
        apply list_elem_of_fmap. exists e. auto. }
      apply elem_of_dom in Hin as [x Hx]. rewrite Hx in Hsel |- *. simpl in Hsel.
      destruct (H01 _ _ Hx) as [->| ->]; [reflexivity | discriminate].
    + pose proof (corridor_ok_iff y corredores) as Hiff.
      apply Hiff in Hact as (e & He & Hs).
      2:{ intros e _. unfold get0. destruct (y !! var_c e.1) as [x|] eqn:Ex; simpl; [|auto].
          exact (H01 _ _ Ex). } exists e. split; [exact He|].
      unfold corredor_sel, get0 in Hs. destruct (y !! var_c e.1) as [x|]; simpl in Hs;
        [|discriminate].
      apply Z.eqb_eq in Hs. congruence.
  - (* an assignment with no order and some corridor *)
    destruct H as [Ho (e & He & Hce)].
    assert (Hsel : ∀ e, e ∈ pedidos → pedido_sel y e.1 = false).
    { intros e' He'. unfold pedido_sel, get0. rewrite (Ho e' He'). reflexivity. }
    unfold viavel. rewrite !andb_true_iff, wave_ok. split; [split|].
    + destruct (total_zero y pedidos Hpos) as [_ Hz]. rewrite (proj2 Hz Hsel). lia.
    + apply capacidade_true. intros item _.
      rewrite (demanda_sem_pedidos y pedidos item Hsel). apply oferta_nonneg, Hnn.
    + apply corridor_ok_iff.
      { intros e' _. unfold get0. destruct (y !! var_c e'.1) as [x|] eqn:Ex; simpl; [|auto].
        exact (H01 _ _ Ex). } exists e. split; [exact He|].
      unfold corredor_sel, get0. rewrite Hce. reflexivity.
Qed.

(** ** The further properties on concrete problems *)

Ltac decide_compute :=
  match goal with
  | |- ?P => apply (bool_decide_unpack P); by_compute
  end.

Ltac each_entry He :=
  apply list_elem_of_In in He; simpl in He;
  repeat (destruct He as [<-|He]); [..|destruct He].

Lemma verifica_corridor_selecionado_conta_witness :
  (verifica_corridor_selecionado {[ "c0" := 1; "c2" := 1 ]} tres_corredores).2 = 2.
Proof.
  destruct (verifica_corridor_selecionado_conta {[ "c0" := 1; "c2" := 1 ]} tres_corredores)
    as [E _].
  - intros e He. each_entry He; vm_compute; auto.
  - rewrite E. by_compute.
Defined.

Lemma verifica_capacidade_sem_pedidos_witness :
  verifica_capacidade {[ "c1" := 1 ]} um_pedido tres_corredores = true.
Proof.
  apply (verifica_capacidade_sem_pedidos {[ "c1" := 1 ]} um_pedido tres_corredores).
  - decide_compute.
  - intros e He. each_entry He; by_compute.
Defined.

Lemma verifica_capacidade_mono_witness :
  verifica_capacidade {[ "o0" := 1; "c0" := 1; "c1" := 1 ]} um_pedido tres_corredores = true.
Proof.
  apply (verifica_capacidade_mono {[ "o0" := 1; "c0" := 1 ]}
           {[ "o0" := 1; "c0" := 1; "c1" := 1 ]} um_pedido tres_corredores).
  - decide_compute.
  - intros e He. each_entry He; by_compute.
  - intros e He. each_entry He; vm_compute; auto.
  - by_compute.
Defined.

Lemma all_solutions_partial_witness :
  ∃ ys, all_solutions (problema dois_pedidos dois_corredores 2 3) {[ "o0" := 1 ]}
        = Done (ys, {[ "o0" := 1 ]})
    ∧ ∀ y, y ∈ ys
        ↔ {[ "o0" := 1 ]} ⊆ y
          ∧ dom y = list_to_set (nomes dois_pedidos dois_corredores)
          ∧ (∀ k x, ({[ "o0" := 1 ]} : gmap string Z) !! k = None →
               y !! k = Some x → x = 0 ∨ x = 1)
          ∧ viavel dois_pedidos dois_corredores 2 3 y = true.
Proof.
  apply (all_solutions_partial dois_pedidos dois_corredores 2 3 {[ "o0" := 1 ]});
    [nodup_keys | nodup_keys | decide_compute].
Defined.

Lemma all_solutions_sem_repeticao_witness :
  ∃ ys, all_solutions (problema dois_pedidos dois_corredores 2 3) ∅ = Done (ys, ∅)
    ∧ NoDup ys
    ∧ (length ys ≤ 2 ^ (length dois_pedidos + length dois_corredores))%nat.
Proof.
  apply (all_solutions_sem_repeticao dois_pedidos dois_corredores 2 3); nodup_keys.
Defined.

Lemma all_solutions_banda_mono_witness :
  ∃ ys ys',
    all_solutions (problema dois_pedidos dois_corredores 2 3) ∅ = Done (ys, ∅)
    ∧ all_solutions (problema dois_pedidos dois_corredores 0 5) ∅ = Done (ys', ∅)
    ∧ ys `sublist_of` ys'.
Proof.
  apply (all_solutions_banda_mono dois_pedidos dois_corredores 2 3 0 5);
    [nodup_keys | nodup_keys | lia | lia].
Defined.

Lemma sem_corredores_witness :
  main_on dois_pedidos [] 0 5 = Done NenhumaSolucao.
Proof. apply (sem_corredores dois_pedidos 0 5). nodup_keys. Defined.

Lemma banda_vazia_witness :
  main_on dois_pedidos dois_corredores 5 3 = Done NenhumaSolucao.
Proof.
  apply (banda_vazia dois_pedidos dois_corredores 5 3); [nodup_keys | nodup_keys | lia].
Defined.

Lemma main_on_desfechos_witness :
  main_on pedidos corredores LB UB = Done NenhumaSolucao
  ∨ (∃ best rs, main_on pedidos corredores LB UB = Done (Melhor best rs) ∧ best ∈ rs)
  ∨ main_on pedidos corredores LB UB = Raise OverflowError.
Proof. apply (main_on_desfechos pedidos corredores LB UB); nodup_keys. Defined.

Lemma banda_zero_witness :
  ∃ ys, all_solutions (problema um_pedido tres_corredores 0 0) ∅ = Done (ys, ∅)
    ∧ ∀ y, y ∈ ys
        ↔ (dom y = list_to_set (nomes um_pedido tres_corredores)
           ∧ ∀ v x, y !! v = Some x → x = 0 ∨ x = 1)
          ∧ (∀ e, e ∈ um_pedido → y !! var_o e.1 = Some 0)
          ∧ (∃ e, e ∈ tres_corredores ∧ y !! var_c e.1 = Some 1).
Proof.
  apply (banda_zero um_pedido tres_corredores);
    [nodup_keys | nodup_keys | decide_compute | decide_compute].
Defined.

Lemma verifica_capacidade_menos_pedidos_witness :
  verifica_capacidade {[ "c0" := 1 ]} um_pedido tres_corredores = true.
Proof.
  apply (verifica_capacidade_menos_pedidos {[ "o0" := 1; "c0" := 1 ]}
           {[ "c0" := 1 ]} um_pedido tres_corredores).
  - decide_compute.
  - intros e He. each_entry He; vm_compute; auto.
  - intros e He. each_entry He; by_compute.
  - by_compute.
Defined.
